(** * Whiteboard: a shallow embedding of [src/App.tsx]

    The component paints pen and eraser strokes on an HTML canvas that grows
    downwards, and exports a vertically trimmed PNG.  The embedding has two
    layers:

    - [Canvas2D]: the host's 2D canvas as the component uses it (bitmaps,
      [getImageData], [drawImage], compositing, the drawing state with its
      save/restore stack).  The rasteriser that turns a stroked segment into
      per-pixel coverage is a host capability and is kept abstract
      ([StrokeRaster]).
    - [Whiteboard]: the component's state and its handlers, one definition
      per function of the source, and the React commit that re-runs the
      canvas effect when its dependencies change.

    Numbers: the logical canvas size and the brush size are integers ([Z]),
    as the code computes them; pointer coordinates and the device pixel
    ratio are rationals ([Q]), with exact arithmetic; bitmap dimensions and
    pixel indices are naturals; colour channels are integers in 0..255. *)

From Stdlib Require Import ZArith QArith Qround Qfield List Bool Lia Arith.
From Stdlib Require Import Lqa.
From Stdlib Require String Ascii DecimalString DecimalN.
Import ListNotations.
Local Open Scope Z_scope.

(* ================================================================= *)
(** ** The host canvas *)

Module Canvas2D.

(** One RGBA pixel, channels as [getImageData] reports them. *)
Record Pixel : Type := mkPixel { red : Z; green : Z; blue : Z; alpha : Z }.

Definition transparent : Pixel := mkPixel 0 0 0 0.

(** The backing store of a canvas element: [canvas.width], [canvas.height]
    and the pixel at column [X], row [Y]. *)
Record Bitmap : Type := mkBitmap
  { canvas_width : nat; canvas_height : nat; pix : nat -> nat -> Pixel }.

Definition getPixel (c : Bitmap) (X Y : nat) : option Pixel :=
  if (X <? canvas_width c)%nat && (Y <? canvas_height c)%nat
  then Some (pix c X Y) else None.

(** [document.createElement("canvas")] followed by setting its width and
    height: a fully transparent bitmap. *)
Definition createCanvas (w h : nat) : Bitmap :=
  mkBitmap w h (fun _ _ => transparent).

Definition pixel_bytes (p : Pixel) : list Z :=
  [red p; green p; blue p; alpha p].

(** [ctx.getImageData(0, 0, w, h).data] for the whole canvas: the flat
    row-major RGBA array.  The host refuses a zero width or height with an
    [IndexSizeError]; the list below is the data of a canvas that has
    pixels, which the mounted component's canvas always has. *)
Definition getImageData (c : Bitmap) : list Z :=
  let w := canvas_width c in
  flat_map (fun i => pixel_bytes (pix c (i mod w)%nat (i / w)%nat))
           (seq 0 (w * canvas_height c)%nat).

(** Porter-Duff compositing of a source colour [s] over or out of the
    destination pixel [d], the source being present with coverage [c] out of
    255.  A pixel whose resulting alpha is 0 is transparent black.  The
    values are those of the host at coverage 0, at coverage 255 with an
    opaque source, and onto a transparent destination; in between, hosts
    round their premultiplied 8-bit channels in their own ways, and only
    what holds under any such rounding is concluded from these formulas. *)
Definition source_over (s d : Pixel) (c : Z) : Pixel :=
  let sa := alpha s * c / 255 in
  let da := alpha d * (255 - sa) / 255 in
  let oa := sa + da in
  if oa =? 0 then transparent
  else mkPixel ((red s * sa + red d * da) / oa)
               ((green s * sa + green d * da) / oa)
               ((blue s * sa + blue d * da) / oa)
               oa.

Definition destination_out (s d : Pixel) (c : Z) : Pixel :=
  let sa := alpha s * c / 255 in
  let oa := alpha d * (255 - sa) / 255 in
  if oa =? 0 then transparent
  else mkPixel (red d) (green d) (blue d) oa.

Inductive CompositeOp : Type := SourceOver | DestinationOut.

Definition composite (op : CompositeOp) (s d : Pixel) (c : Z) : Pixel :=
  match op with
  | SourceOver => source_over s d c
  | DestinationOut => destination_out s d c
  end.

(** [dstCtx.drawImage(src, 0, 0)] under the identity transform. *)
Definition drawImage (src dst : Bitmap) : Bitmap :=
  mkBitmap (canvas_width dst) (canvas_height dst)
    (fun X Y =>
       if (X <? canvas_width src)%nat && (Y <? canvas_height src)%nat
       then source_over (pix src X Y) (pix dst X Y) 255
       else pix dst X Y).

Definition Qlt_bool (a b : Q) : bool := negb (Qle_bool b a).

Definition Qnat (n : nat) : Q := inject_Z (Z.of_nat n).

(** [dstCtx.drawImage(src, 0, 0, dw, dh)] under the transform
    [setTransform(scale, 0, 0, scale, 0, 0)]: the whole of [src] is mapped
    onto the device rectangle of extent [dw * scale] by [dh * scale], each
    destination pixel sampling the source pixel it falls on. *)
Definition drawImageScaled (scale : Q) (src : Bitmap) (dw dh : Q)
    (dst : Bitmap) : Bitmap :=
  let DW := (dw * scale)%Q in
  let DH := (dh * scale)%Q in
  mkBitmap (canvas_width dst) (canvas_height dst)
    (fun X Y =>
       if Qlt_bool (Qnat X) DW && Qlt_bool (Qnat Y) DH
       then
         let sx := Z.to_nat (Qfloor (Qnat X * Qnat (canvas_width src) / DW)%Q) in
         let sy := Z.to_nat (Qfloor (Qnat Y * Qnat (canvas_height src) / DH)%Q) in
         source_over (pix src sx sy) (pix dst X Y) 255
       else pix dst X Y).

(** [ctx.clearRect(0, 0, w, h)] under the transform [scale]: the pixels
    inside the device rectangle become transparent. *)
Definition clearRect (scale : Q) (w h : Q) (c : Bitmap) : Bitmap :=
  mkBitmap (canvas_width c) (canvas_height c)
    (fun X Y =>
       if Qle_bool (Qnat (S X)) (w * scale)%Q
          && Qle_bool (Qnat (S Y)) (h * scale)%Q
       then transparent else pix c X Y).

Inductive LineJoin : Type := JoinMiter | JoinRound | JoinBevel.
Inductive LineCap : Type := CapButt | CapRound | CapSquare.

(** The drawing state of a 2D context, the part the component touches. *)
Record DrawState : Type := mkDrawState
  { lineJoin : LineJoin;
    lineCap : LineCap;
    lineWidth : Z;
    globalCompositeOperation : CompositeOp;
    strokeStyle : Pixel;
    transform : Q }.

(** A context: its current drawing state and the stack of saved ones. *)
Record Context : Type := mkContext
  { current : DrawState; saved : list DrawState }.

Definition defaultDrawState : DrawState :=
  mkDrawState JoinMiter CapButt 1 SourceOver (mkPixel 0 0 0 255) 1%Q.

(** A context after its canvas was created or resized. *)
Definition resetContext : Context := mkContext defaultDrawState [].

Definition save (k : Context) : Context :=
  mkContext (current k) (current k :: saved k).

(** [ctx.restore()]: pops the saved state; does nothing on an empty stack. *)
Definition restore (k : Context) : Context :=
  match saved k with
  | [] => k
  | d :: rest => mkContext d rest
  end.

Definition update (f : DrawState -> DrawState) (k : Context) : Context :=
  mkContext (f (current k)) (saved k).

Definition set_lineJoin (j : LineJoin) (d : DrawState) : DrawState :=
  mkDrawState j (lineCap d) (lineWidth d) (globalCompositeOperation d)
              (strokeStyle d) (transform d).
Definition set_lineCap (c : LineCap) (d : DrawState) : DrawState :=
  mkDrawState (lineJoin d) c (lineWidth d) (globalCompositeOperation d)
              (strokeStyle d) (transform d).
(** The host ignores a line width that is not positive. *)
Definition set_lineWidth (w : Z) (d : DrawState) : DrawState :=
  if 0 <? w
  then mkDrawState (lineJoin d) (lineCap d) w (globalCompositeOperation d)
                   (strokeStyle d) (transform d)
  else d.
Definition set_globalCompositeOperation (op : CompositeOp) (d : DrawState)
    : DrawState :=
  mkDrawState (lineJoin d) (lineCap d) (lineWidth d) op
              (strokeStyle d) (transform d).
Definition set_strokeStyle (s : Pixel) (d : DrawState) : DrawState :=
  mkDrawState (lineJoin d) (lineCap d) (lineWidth d)
              (globalCompositeOperation d) s (transform d).
Definition setTransform (s : Q) (d : DrawState) : DrawState :=
  mkDrawState (lineJoin d) (lineCap d) (lineWidth d)
              (globalCompositeOperation d) (strokeStyle d) s.

(** The host's stroke rasteriser: for the segment from [p] to [q] (logical
    coordinates), stroked with the given transform scale, line width, cap
    and join, the coverage (0..255) of the device pixel at column [X], row
    [Y].  The component only invokes it; every result below holds for any
    rasteriser. *)
Class StrokeRaster : Type :=
  coverage : Q -> Z -> LineCap -> LineJoin -> Q * Q -> Q * Q -> nat -> nat -> Z.

(** [beginPath(); moveTo(p); lineTo(q); stroke()]. *)
Definition stroke `{StrokeRaster} (d : DrawState) (p q : Q * Q) (c : Bitmap)
    : Bitmap :=
  mkBitmap (canvas_width c) (canvas_height c)
    (fun X Y =>
       composite (globalCompositeOperation d) (strokeStyle d) (pix c X Y)
         (coverage (transform d) (lineWidth d) (lineCap d) (lineJoin d)
                   p q X Y)).

End Canvas2D.

(* ================================================================= *)
(** ** The component *)

Module Whiteboard.
Import Canvas2D.

(** [clamp(v, min, max) = Math.max(min, Math.min(max, v))]. *)
Definition clamp (v min max : Z) : Z := Z.max min (Z.min max v).

Inductive Tool : Type := pen | eraser.

Record Point : Type := mkPoint { pt_x : Q; pt_y : Q }.

Definition coords (p : Point) : Q * Q := (pt_x p, pt_y p).

Record Size : Type := mkSize { width : Z; height : Z }.

(** The [useState] cells of the component, and the canvas element behind
    [canvasRef] with its 2D context. *)
Record State : Type := mkState
  { tool : Tool;
    color : Pixel;
    size : Z;
    isDrawing : bool;
    lastPoint : option Point;
    canvasSize : Size;
    dpr : Q;
    canvas : Bitmap;
    ctx : Context }.

Definition setTool (t : Tool) (s : State) : State :=
  mkState t (color s) (size s) (isDrawing s) (lastPoint s) (canvasSize s)
          (dpr s) (canvas s) (ctx s).
Definition setColor (c : Pixel) (s : State) : State :=
  mkState (tool s) c (size s) (isDrawing s) (lastPoint s) (canvasSize s)
          (dpr s) (canvas s) (ctx s).
Definition setSize (n : Z) (s : State) : State :=
  mkState (tool s) (color s) n (isDrawing s) (lastPoint s) (canvasSize s)
          (dpr s) (canvas s) (ctx s).
Definition setIsDrawing (b : bool) (s : State) : State :=
  mkState (tool s) (color s) (size s) b (lastPoint s) (canvasSize s)
          (dpr s) (canvas s) (ctx s).
Definition setLastPoint (p : option Point) (s : State) : State :=
  mkState (tool s) (color s) (size s) (isDrawing s) p (canvasSize s)
          (dpr s) (canvas s) (ctx s).
Definition setCanvasSize (f : Size -> Size) (s : State) : State :=
  mkState (tool s) (color s) (size s) (isDrawing s) (lastPoint s)
          (f (canvasSize s)) (dpr s) (canvas s) (ctx s).
Definition setDpr (r : Q) (s : State) : State :=
  mkState (tool s) (color s) (size s) (isDrawing s) (lastPoint s)
          (canvasSize s) r (canvas s) (ctx s).
Definition with_canvas (c : Bitmap) (k : Context) (s : State) : State :=
  mkState (tool s) (color s) (size s) (isDrawing s) (lastPoint s)
          (canvasSize s) (dpr s) c k.

(** [PRESET_COLORS[0]], "#111827". *)
Definition gray900 : Pixel := mkPixel 17 24 39 255.

(** The state of the first render; a canvas element starts 300 by 150. *)
Definition initialState : State :=
  mkState pen gray900 4 false None (mkSize 1600 1400) 1%Q
          (createCanvas 300 150) resetContext.

(** [Math.max] on the pixel ratio. *)
Definition Qmax2 (a b : Q) : Q := if Qle_bool a b then b else a.

(** [handleResize]: [devicePixelRatio] is [window.devicePixelRatio],
    [container] is [containerRef.current] given by its [clientWidth]. *)
Definition handleResize (devicePixelRatio : Q) (container : option Z)
    (s : State) : State :=
  let pixelRatio :=
    Qmax2 (if Qeq_bool devicePixelRatio 0 then 1%Q else devicePixelRatio) 1%Q in
  let s1 := setDpr pixelRatio s in
  match container with
  | None => s1
  | Some clientWidth =>
      let paddingX := 32 in
      let width := Z.max 800 (clientWidth - paddingX) in
      setCanvasSize (fun prev => mkSize width (height prev)) s1
  end.

(** [Math.floor(v * dpr)] as a canvas dimension, the product taken
    exactly.  It is the code's value whenever the product is a double, as
    at whole and other dyadic ratios; at a ratio such as 1.15 the code's
    rounded product can fall one pixel to either side. *)
Definition physical (v : Z) (r : Q) : nat :=
  Z.to_nat (Qfloor (inject_Z v * r)%Q).

(** The second effect, "(Re)initialize the canvas element when size or DPR
    changes": returns the reallocated canvas and its context. *)
Definition reinit (canvas : Bitmap) (canvasSize : Size) (dpr : Q)
    : Bitmap * Context :=
  let prev :=
    drawImage canvas
      (createCanvas (canvas_width canvas) (canvas_height canvas)) in
  let resized :=
    createCanvas (physical (width canvasSize) dpr)
                 (physical (height canvasSize) dpr) in
  let k := update (setTransform dpr) resetContext in
  if (0 <? canvas_width prev)%nat && (0 <? canvas_height prev)%nat
  then (drawImageScaled dpr prev
          (Qnat (canvas_width prev) / dpr)%Q
          (Qnat (canvas_height prev) / dpr)%Q resized, k)
  else (resized, k).

Definition runEffect (s : State) : State :=
  let (c, k) := reinit (canvas s) (canvasSize s) (dpr s) in
  with_canvas c k s.

(** The dependency list [[canvasSize.width, canvasSize.height, dpr]]. *)
Definition sameDeps (old new : State) : bool :=
  (width (canvasSize old) =? width (canvasSize new))
  && (height (canvasSize old) =? height (canvasSize new))
  && Qeq_bool (dpr old) (dpr new).

(** A React commit after a handler turned [old] into [new]: the canvas
    effect runs again when one of its dependencies changed. *)
Definition commit (old new : State) : State :=
  if sameDeps old new then new else runEffect new.

(** A pointer event: its client coordinates and the bounding rectangle of
    the canvas it targets. *)
Record PointerEvent : Type := mkPointerEvent
  { clientX : Q; clientY : Q; rect_left : Q; rect_top : Q }.

(** The point relative to the canvas, the differences taken exactly; they
    are the code's values whenever they are doubles, as for whole-pixel
    coordinates. *)
Definition localPoint (e : PointerEvent) : Point :=
  mkPoint (clientX e - rect_left e)%Q (clientY e - rect_top e)%Q.

Definition startDraw (e : PointerEvent) (s : State) : State :=
  setLastPoint (Some (localPoint e)) (setIsDrawing true s).

Definition extendIfNeeded (y : Q) (s : State) : State :=
  let threshold := 200%Q in
  if Qlt_bool (inject_Z (height (canvasSize s)) - y)%Q threshold
  then setCanvasSize (fun prev => mkSize (width prev) (height prev + 1000)) s
  else s.

(** The drawing state [drawLine] sets up before it strokes. *)
Definition strokeSetup (t : Tool) (c : Pixel) (sz : Z) (k : Context)
    : Context :=
  let k1 := update (set_lineJoin JoinRound) k in
  let k2 := update (set_lineCap CapRound) k1 in
  let k3 := update (set_lineWidth (clamp sz 1 64)) k2 in
  match t with
  | eraser =>
      update (set_strokeStyle (mkPixel 0 0 0 255))
             (update (set_globalCompositeOperation DestinationOut) k3)
  | pen =>
      update (set_strokeStyle c)
             (update (set_globalCompositeOperation SourceOver) k3)
  end.

Section WithHost.
Context `{StrokeRaster}.

Definition drawLine (from to : Point) (s : State) : State :=
  let k := strokeSetup (tool s) (color s) (size s) (ctx s) in
  let c := stroke (current k) (coords from) (coords to) (canvas s) in
  with_canvas c (restore k) s.

Definition onPointerMove (e : PointerEvent) (s : State) : State :=
  match isDrawing s, lastPoint s with
  | true, Some lp =>
      let p := localPoint e in
      extendIfNeeded (pt_y p) (setLastPoint (Some p) (drawLine lp p s))
  | _, _ => s
  end.

End WithHost.

Definition endDrawUp (s : State) : State :=
  setLastPoint None (setIsDrawing false s).
Definition endDrawCancel (s : State) : State :=
  setLastPoint None (setIsDrawing false s).
Definition endDrawLeave (s : State) : State :=
  setLastPoint None (setIsDrawing false s).
Definition endDrawOut (s : State) : State :=
  setLastPoint None (setIsDrawing false s).

Definition handleClear (s : State) : State :=
  let k := update (setTransform (dpr s)) (save (ctx s)) in
  let c := clearRect (transform (current k))
             (Qnat (canvas_width (canvas s)))
             (Qnat (canvas_height (canvas s))) (canvas s) in
  with_canvas c (restore k) s.

(** [imgData[i] !== 0]; reading past the end of the array gives
    [undefined], which is not [0]. *)
Definition nonzero_at (imgData : list Z) (i : nat) : bool :=
  match nth_error imgData i with
  | Some a => negb (a =? 0)
  | None => true
  end.

(** The inner loop of [handleExport] from column [x] on, [n] columns left. *)
Fixpoint rowHasInkFrom (imgData : list Z) (rowStart : nat) (n x : nat)
    : bool :=
  match n with
  | O => false
  | S n' =>
      if nonzero_at imgData (rowStart + x * 4 + 3)
      then true
      else rowHasInkFrom imgData rowStart n' (S x)
  end.

Definition rowHasInk (imgData : list Z) (w y : nat) : bool :=
  rowHasInkFrom imgData (y * w * 4) w 0.

(** The outer loop, [n] rows left: rows [n - 1] down to 0;
    [lastNonEmptyY] keeps its initial 0 when no row has ink. *)
Fixpoint lastNonEmptyRow (imgData : list Z) (w : nat) (n : nat) : nat :=
  match n with
  | O => O
  | S y => if rowHasInk imgData w y then y else lastNonEmptyRow imgData w y
  end.

(** [handleExport]: the canvas whose PNG encoding is downloaded. *)
Definition handleExport (c : Bitmap) : Bitmap :=
  let w := canvas_width c in
  let h := canvas_height c in
  let imgData := getImageData c in
  let lastNonEmptyY := lastNonEmptyRow imgData w h in
  let exportCanvas := createCanvas w (Nat.max 1 (lastNonEmptyY + 10)) in
  drawImage c exportCanvas.

(** What can happen to the mounted component. *)
Inductive Event : Type :=
  | Resize (devicePixelRatio : Q) (container : option Z)
  | PointerDown (e : PointerEvent)
  | PointerMove (e : PointerEvent)
  | PointerUp
  | PointerCancel
  | PointerLeave
  | PointerOut
  | ClickPen
  | ClickEraser
  | PickColor (c : Pixel)
  | SlideSize (n : Z)
  | ClickClear
  | ClickExport.

Definition handle `{StrokeRaster} (ev : Event) (s : State) : State :=
  match ev with
  | Resize r c => handleResize r c s
  | PointerDown e => startDraw e s
  | PointerMove e => onPointerMove e s
  | PointerUp => endDrawUp s
  | PointerCancel => endDrawCancel s
  | PointerLeave => endDrawLeave s
  | PointerOut => endDrawOut s
  | ClickPen => setTool pen s
  | ClickEraser => setTool eraser s
  | PickColor c => setTool pen (setColor c s)
  | SlideSize n => setSize n s
  | ClickClear => handleClear s
  | ClickExport => s
  end.

(** One event: its handler, then the commit. *)
Definition step `{StrokeRaster} (s : State) (ev : Event) : State :=
  commit s (handle ev s).

Definition run `{StrokeRaster} (s : State) (evs : list Event) : State :=
  fold_left step evs s.

(** Mounting: the canvas effect runs on the first render, and again after
    the first [handleResize] if that changed a dependency. *)
Definition mount (devicePixelRatio : Q) (container : option Z) : State :=
  let s0 := runEffect initialState in
  commit s0 (handleResize devicePixelRatio container s0).

End Whiteboard.

(** The name of the downloaded file. *)
Module Download.
Import String.
Local Open Scope string_scope.

(** A non-negative integer as a template literal prints it. *)
Definition decimal (n : N) : string :=
  DecimalString.NilEmpty.string_of_uint (N.to_uint n).

(** [`whiteboard-${Date.now()}.png`], [now] being [Date.now()]. *)
Definition downloadName (now : N) : string :=
  "whiteboard-" ++ decimal now ++ ".png".

End Download.

(* ================================================================= *)
(** ** Vocabulary of the properties *)

Import Canvas2D Whiteboard.

(** Canvas bitmaps keep transparent pixels as transparent black; every
    bitmap the component produces is of this kind
    ([reachable_canonical] below). *)
Definition canonical (c : Bitmap) : Prop :=
  forall X Y, alpha (pix c X Y) = 0 -> pix c X Y = transparent.

(** Row [Y] of [c] has ink: some pixel of it has non-zero alpha. *)
Definition row_has_ink (c : Bitmap) (Y : nat) : Prop :=
  exists X, (X < canvas_width c)%nat /\ alpha (pix c X Y) <> 0.

(** [y] is the first row with ink met when scanning from the bottom. *)
Definition bottom_ink_row (c : Bitmap) (y : nat) : Prop :=
  (y < canvas_height c)%nat /\ row_has_ink c y /\
  forall y', (y < y')%nat -> (y' < canvas_height c)%nat -> ~ row_has_ink c y'.

Definition blank (c : Bitmap) : Prop :=
  forall y, (y < canvas_height c)%nat -> ~ row_has_ink c y.

(** The exported image is, pixel for pixel, the region of the source that
    has the exported image's size. *)
Definition export_is_region_copy (c : Bitmap) : Prop :=
  forall X Y,
    (X < canvas_width (handleExport c))%nat ->
    (Y < canvas_height (handleExport c))%nat ->
    getPixel (handleExport c) X Y = getPixel c X Y.

(** A [w] by [h] bitmap whose only ink is one opaque black pixel. *)
Definition ink_at (w h X0 Y0 : nat) : Bitmap :=
  mkBitmap w h
    (fun X Y => if (X =? X0)%nat && (Y =? Y0)%nat
                then mkPixel 0 0 0 255 else transparent).

(** The drawing state in force when [drawLine] strokes. *)
Definition strokeState (s : State) : DrawState :=
  current (strokeSetup (tool s) (color s) (size s) (ctx s)).

(** A gesture drawn segment by segment along [path], the way successive
    pointer-moves chain [drawLine] calls. *)
Fixpoint drawPath `{StrokeRaster} (from : Point) (path : list Point)
    (s : State) : State :=
  match path with
  | [] => s
  | to :: rest => drawPath to rest (drawLine from to s)
  end.





Definition idle (s : State) : Prop := isDrawing s = false.

Definition ends_session (ev : Event) : Prop :=
  ev = PointerUp \/ ev = PointerCancel \/ ev = PointerLeave \/ ev = PointerOut.

Definition is_pointer_down (ev : Event) : bool :=
  match ev with PointerDown _ => true | _ => false end.

(** A pointer event at the local point [(x, y)] of a canvas at the origin. *)
Definition pointerAt (x y : Q) : PointerEvent :=
  mkPointerEvent x y 0%Q 0%Q.


(** A rasteriser to run examples with: the stroke covers the device pixels
    its two end points fall on. *)
Definition endpointCoverage (scale : Q) (w : Z) (cap : LineCap)
    (join : LineJoin) (p q : Q * Q) (X Y : nat) : Z :=
  let on (a : Q * Q) :=
    (Z.of_nat X =? Qfloor (fst a * scale)%Q)
    && (Z.of_nat Y =? Qfloor (snd a * scale)%Q) in
  if on p || on q then 255 else 0.

Definition endpointRaster : StrokeRaster := endpointCoverage.



(** A rasteriser that drops a zero-length segment before stroking and
    otherwise covers the end points. *)
Definition pruningCoverage (scale : Q) (w : Z) (cap : LineCap)
    (join : LineJoin) (p q : Q * Q) (X Y : nat) : Z :=
  if Qeq_bool (fst p) (fst q) && Qeq_bool (snd p) (snd q) then 0
  else endpointCoverage scale w cap join p q X Y.

Definition pruningRaster : StrokeRaster := pruningCoverage.

(** The states the mounted component can be in. *)
Inductive reachable `{StrokeRaster} : State -> Prop :=
  | reach_mount : forall r c, reachable (mount r c)
  | reach_step : forall s ev, reachable s -> reachable (step s ev).

(** The logical sizes and scale factors the handlers produce: the width
    is at least 800, the height is 1400 plus a number of growth steps, the
    scale factor is at least 1. *)
Definition logical_ok (s : State) : Prop :=
  800 <= width (canvasSize s) /\
  (exists k, 0 <= k /\ height (canvasSize s) = 1400 + 1000 * k) /\
  (1 <= dpr s)%Q.

(** The canvas has the physical size of the logical one, and its context
    scales by the scale factor. *)
Definition canvas_ok (s : State) : Prop :=
  canvas_width (canvas s) = physical (width (canvasSize s)) (dpr s) /\
  canvas_height (canvas s) = physical (height (canvasSize s)) (dpr s) /\
  (transform (current (ctx s)) == dpr s)%Q.

(** A session is open exactly when it has a last point. *)
Definition session_ok (s : State) : Prop :=
  isDrawing s = true <-> lastPoint s <> None.

(** The pointer event is at least 200 above the bottom of the canvas. *)
Definition above_threshold (s : State) (e : PointerEvent) : Prop :=
  ~ (inject_Z (height (canvasSize s)) - pt_y (localPoint e) < 200)%Q.

(** Every pixel inside the bitmap is transparent. *)
Definition all_transparent (c : Bitmap) : Prop :=
  forall X Y, (X < canvas_width c)%nat -> (Y < canvas_height c)%nat ->
    pix c X Y = transparent.

(* ================================================================= *)
(** ** Rational comparisons *)

Lemma Qlt_bool_iff (a b : Q) : Qlt_bool a b = true <-> (a < b)%Q.
Proof.
  unfold Qlt_bool. rewrite negb_true_iff. split.
  - intros E. apply Qnot_le_lt. intros Hle.
    apply Qle_bool_iff in Hle. congruence.
  - intros Hlt. destruct (Qle_bool b a) eqn:E; [|reflexivity].
    apply Qle_bool_iff in E. exfalso. exact (Qlt_not_le _ _ Hlt E).
Qed.

Lemma Qnat_lt (X w : nat) : (Qnat X < Qnat w)%Q <-> (X < w)%nat.
Proof. unfold Qnat. rewrite <- Zlt_Qlt. lia. Qed.

Lemma Qnat_pos (w : nat) : (0 < w)%nat -> ~ (Qnat w == 0)%Q.
Proof.
  intros Hw E.
  assert (Hlt : (Qnat 0 < Qnat w)%Q) by (apply Qnat_lt; exact Hw).
  rewrite E in Hlt. exact (Qlt_irrefl _ Hlt).
Qed.

(* ================================================================= *)
(** ** The export trimmer *)

Lemma nth_error_flat_map_chunk {A B : Type} (f : A -> list B) (n : nat) :
  (forall a, length (f a) = n) ->
  forall l i k, (k < n)%nat ->
    nth_error (flat_map f l) (i * n + k) =
    match nth_error l i with
    | Some a => nth_error (f a) k
    | None => None
    end.
Proof.
  intros Hlen l; induction l as [|a l IH]; intros i k Hk.
  - destruct i; simpl; [destruct k|]; reflexivity || (destruct (_ + _)%nat; reflexivity).
  - destruct i as [|i]; simpl.
    + rewrite nth_error_app1 by (rewrite Hlen; exact Hk). reflexivity.
    + rewrite nth_error_app2 by (rewrite Hlen; lia).
      rewrite Hlen.
      replace (n + i * n + k - n)%nat with (i * n + k)%nat by lia.
      apply IH; exact Hk.
Qed.

Lemma getImageData_alpha (c : Bitmap) (X Y : nat) :
  (X < canvas_width c)%nat -> (Y < canvas_height c)%nat ->
  nth_error (getImageData c) (Y * canvas_width c * 4 + X * 4 + 3)
  = Some (alpha (pix c X Y)).
Proof.
  intros HX HY. unfold getImageData.
  set (w := canvas_width c) in *.
  replace (Y * w * 4 + X * 4 + 3)%nat with ((Y * w + X) * 4 + 3)%nat by lia.
  rewrite (nth_error_flat_map_chunk _ 4%nat) by (reflexivity || lia).
  assert (Hi : (Y * w + X < w * canvas_height c)%nat) by nia.
  rewrite nth_error_seq. 
  destruct (Nat.ltb_spec (Y * w + X) (w * canvas_height c)); [|lia].
  simpl.
  replace ((Y * w + X) mod w)%nat with X.
  2:{ rewrite Nat.add_comm, Nat.Div0.mod_add. symmetry; apply Nat.mod_small; lia. }
  replace ((Y * w + X) / w)%nat with Y.
  2:{ rewrite Nat.add_comm, Nat.div_add by lia.
      rewrite Nat.div_small by lia. reflexivity. }
  reflexivity.
Qed.

Lemma rowHasInkFrom_true (img : list Z) (rs n x : nat) :
  rowHasInkFrom img rs n x = true <->
  exists j, (x <= j < x + n)%nat /\ nonzero_at img (rs + j * 4 + 3) = true.
Proof.
  revert x; induction n as [|n IH]; intros x; simpl.
  - split; [discriminate | intros [j [Hj _]]; lia].
  - destruct (nonzero_at img (rs + x * 4 + 3)) eqn:E.
    + split; [intros _; exists x; split; [lia | exact E] | reflexivity].
    + rewrite IH. split; intros [j [Hj Hnz]]; exists j; split; try exact Hnz.
      * lia.
      * destruct (Nat.eq_dec j x) as [->|]; [congruence | lia].
Qed.

(** The inner loop decides [row_has_ink] on the canvas' own image data. *)
Lemma rowHasInk_spec (c : Bitmap) (y : nat) :
  (y < canvas_height c)%nat ->
  (rowHasInk (getImageData c) (canvas_width c) y = true <-> row_has_ink c y).
Proof.
  intros Hy. unfold rowHasInk, row_has_ink. rewrite rowHasInkFrom_true.
  split.
  - intros [j [Hj Hnz]]. exists j. split; [lia|].
    unfold nonzero_at in Hnz. rewrite getImageData_alpha in Hnz by lia.
    intros E; rewrite E in Hnz; discriminate.
  - intros [X [HX Ha]]. exists X. split; [lia|].
    unfold nonzero_at. rewrite getImageData_alpha by lia.
    destruct (Z.eqb_spec (alpha (pix c X y)) 0); [contradiction | reflexivity].
Qed.

Lemma rowHasInk_false (c : Bitmap) (y : nat) :
  (y < canvas_height c)%nat -> ~ row_has_ink c y ->
  rowHasInk (getImageData c) (canvas_width c) y = false.
Proof.
  intros Hy Hn.
  destruct (rowHasInk (getImageData c) (canvas_width c) y) eqn:E; [|reflexivity].
  apply rowHasInk_spec in E; [contradiction | exact Hy].
Qed.

(** The outer loop stops at the first row with ink, counted from row
    [n - 1] upwards. *)
Lemma lastNonEmptyRow_found (c : Bitmap) (n y : nat) :
  (n <= canvas_height c)%nat -> (y < n)%nat -> row_has_ink c y ->
  (forall y', (y < y')%nat -> (y' < n)%nat -> ~ row_has_ink c y') ->
  lastNonEmptyRow (getImageData c) (canvas_width c) n = y.
Proof.
  induction n as [|n IH]; intros Hn Hy Hink Hbelow; [lia|]. simpl.
  destruct (Nat.eq_dec y n) as [->|Hne].
  - assert (E : rowHasInk (getImageData c) (canvas_width c) n = true)
      by (apply rowHasInk_spec; [lia | exact Hink]).
    rewrite E. reflexivity.
  - rewrite rowHasInk_false by (try lia; apply Hbelow; lia).
    apply IH; try lia; try exact Hink.
    intros y' H1 H2. apply Hbelow; lia.
Qed.

Lemma lastNonEmptyRow_blank (c : Bitmap) (n : nat) :
  (n <= canvas_height c)%nat ->
  (forall y', (y' < n)%nat -> ~ row_has_ink c y') ->
  lastNonEmptyRow (getImageData c) (canvas_width c) n = 0%nat.
Proof.
  induction n as [|n IH]; intros Hn Hb; [reflexivity|]. simpl.
  rewrite rowHasInk_false by (try lia; apply Hb; lia).
  apply IH; [lia | intros; apply Hb; lia].
Qed.

Lemma export_width (c : Bitmap) :
  canvas_width (handleExport c) = canvas_width c.
Proof. reflexivity. Qed.

Lemma export_height_found (c : Bitmap) (y : nat) :
  bottom_ink_row c y -> canvas_height (handleExport c) = (y + 10)%nat.
Proof.
  intros (Hy & Hink & Hbelow).
  unfold handleExport, drawImage, createCanvas; cbn [canvas_height].
  rewrite (lastNonEmptyRow_found c _ y (Nat.le_refl _) Hy Hink Hbelow). lia.
Qed.

Lemma export_height_blank (c : Bitmap) :
  blank c -> canvas_height (handleExport c) = 10%nat.
Proof.
  intros Hb.
  unfold handleExport, drawImage, createCanvas; cbn [canvas_height].
  rewrite (lastNonEmptyRow_blank c _ (Nat.le_refl _) Hb). reflexivity.
Qed.

(** Drawing onto a fresh canvas copies a canonical pixel unchanged. *)
Lemma source_over_transparent (p : Pixel) :
  (alpha p = 0 -> p = transparent) -> source_over p transparent 255 = p.
Proof.
  intros Hc. unfold source_over. simpl alpha.
  rewrite Z.div_mul by lia. rewrite Z.add_0_r.
  destruct (Z.eqb_spec (alpha p) 0) as [E|E].
  - symmetry; apply Hc; exact E.
  - simpl. rewrite !Z.add_0_r, !Z.div_mul by exact E.
    destruct p; reflexivity.
Qed.

Lemma export_pixel (c : Bitmap) (X Y : nat) :
  canonical c ->
  pix (handleExport c) X Y =
  if (X <? canvas_width c)%nat && (Y <? canvas_height c)%nat
  then pix c X Y else transparent.
Proof.
  intros Hc. unfold handleExport, drawImage; simpl.
  destruct ((X <? canvas_width c)%nat && (Y <? canvas_height c)%nat);
    [apply source_over_transparent, Hc | reflexivity].
Qed.

Lemma getPixel_inside (c : Bitmap) (X Y : nat) :
  (X < canvas_width c)%nat -> (Y < canvas_height c)%nat ->
  getPixel c X Y = Some (pix c X Y).
Proof.
  intros HX HY. unfold getPixel.
  destruct (Nat.ltb_spec X (canvas_width c)); [|lia].
  destruct (Nat.ltb_spec Y (canvas_height c)); [|lia]. reflexivity.
Qed.

Lemma getPixel_below (c : Bitmap) (X Y : nat) :
  (canvas_height c <= Y)%nat -> getPixel c X Y = None.
Proof.
  intros HY. unfold getPixel.
  destruct (Nat.ltb_spec Y (canvas_height c)); [lia|].
  rewrite andb_false_r. reflexivity.
Qed.

Lemma ink_at_canonical (w h X0 Y0 : nat) : canonical (ink_at w h X0 Y0).
Proof.
  intros X Y. unfold ink_at; cbn [pix].
  destruct ((X =? X0)%nat && (Y =? Y0)%nat); [discriminate | reflexivity].
Qed.

Lemma ink_at_bottom_row (w h X0 Y0 : nat) :
  (X0 < w)%nat -> (Y0 < h)%nat -> bottom_ink_row (ink_at w h X0 Y0) Y0.
Proof.
  intros HX HY. unfold bottom_ink_row, row_has_ink, ink_at.
  cbn [canvas_width canvas_height pix]. repeat split.
  - exact HY.
  - exists X0. split; [exact HX|]. rewrite !Nat.eqb_refl. discriminate.
  - intros y' Hlt _ [X [_ Ha]].
    destruct (Nat.eqb_spec y' Y0) as [->|_]; [lia|].
    rewrite andb_false_r in Ha. apply Ha; reflexivity.
Qed.

(** C1 (amended): for every canvas bitmap, [handleExport] yields an image
    of the source's width whose height is [max 1 (y + 10)] for the first row
    [y] with ink met from the bottom (10 when no row has ink); its rows that
    exist in the source are a direct copy of the source, and its rows at or
    beyond the source's height are transparent. *)
Theorem export_trims_and_copies (c : Bitmap) (Hc : canonical c) :
  canvas_width (handleExport c) = canvas_width c /\
  (forall y, bottom_ink_row c y ->
     canvas_height (handleExport c) = Nat.max 1 (y + 10)) /\
  (blank c -> canvas_height (handleExport c) = 10%nat) /\
  (forall X Y,
     (X < canvas_width (handleExport c))%nat ->
     (Y < canvas_height (handleExport c))%nat ->
     getPixel (handleExport c) X Y =
     if (Y <? canvas_height c)%nat then getPixel c X Y else Some transparent).
Proof.
  split; [apply export_width|].
  split; [intros y Hy; rewrite (export_height_found c y Hy); lia|].
  split; [apply export_height_blank|].
  intros X Y HX HY. rewrite getPixel_inside by assumption.
  rewrite export_pixel by exact Hc. rewrite export_width in HX.
  destruct (Nat.ltb_spec Y (canvas_height c)) as [Hin|Hout].
  - rewrite getPixel_inside by assumption.
    destruct (Nat.ltb_spec X (canvas_width c)); [reflexivity | lia].
  - rewrite andb_false_r. reflexivity.
Qed.

(** The export theorem on a 2 by 3 bitmap with one inked pixel. *)
Lemma export_trims_and_copies_witness :
  canvas_width (handleExport (ink_at 2 3 1 1)) = 2%nat /\
  (forall y, bottom_ink_row (ink_at 2 3 1 1) y ->
     canvas_height (handleExport (ink_at 2 3 1 1)) = Nat.max 1 (y + 10)) /\
  (blank (ink_at 2 3 1 1) ->
     canvas_height (handleExport (ink_at 2 3 1 1)) = 10%nat) /\
  (forall X Y,
     (X < canvas_width (handleExport (ink_at 2 3 1 1)))%nat ->
     (Y < canvas_height (handleExport (ink_at 2 3 1 1)))%nat ->
     getPixel (handleExport (ink_at 2 3 1 1)) X Y =
     if (Y <? 3)%nat then getPixel (ink_at 2 3 1 1) X Y
     else Some transparent).
Proof.
  apply (export_trims_and_copies (ink_at 2 3 1 1)).
  apply ink_at_canonical.
Defined.

(** C1, as stated, fails: on an 800 by 1400 canvas whose only ink is a
    pixel of the bottom row, the exported image has 1409 rows, and its
    pixel at row 1405 is not a pixel of the source, which has no such row. *)
Lemma export_not_region_copy :
  canonical (ink_at 800 1400 0 1399) /\
  bottom_ink_row (ink_at 800 1400 0 1399) 1399 /\
  ~ export_is_region_copy (ink_at 800 1400 0 1399).
Proof.
  assert (Hb : bottom_ink_row (ink_at 800 1400 0 1399) 1399)
    by (apply ink_at_bottom_row; lia).
  split; [apply ink_at_canonical|]. split; [exact Hb|].
  assert (Hh := export_height_found _ _ Hb).
  assert (E1 : getPixel (ink_at 800 1400 0 1399) 0 1405 = None)
    by (apply getPixel_below, Nat.leb_le; reflexivity).
  assert (E2 : getPixel (handleExport (ink_at 800 1400 0 1399)) 0 1405
               = Some (pix (handleExport (ink_at 800 1400 0 1399)) 0 1405)).
  { apply getPixel_inside; [rewrite export_width | rewrite Hh];
      apply Nat.ltb_lt; reflexivity. }
  intros Hcopy. specialize (Hcopy 0%nat 1405%nat).
  rewrite E1, E2 in Hcopy.
  assert (Some (pix (handleExport (ink_at 800 1400 0 1399)) 0 1405) = None)
    as Habs; [|discriminate Habs].
  apply Hcopy; [rewrite export_width | rewrite Hh]; apply Nat.ltb_lt; reflexivity.
Qed.

(** C10 (amended): when the first row with ink met from the bottom is [y]
    and [y + 10] exceeds the source height [h], the exported image is
    [y + 10] rows high, higher than the source, and its rows from [h] on are
    fully transparent; the height is not capped at [h]. *)
Theorem export_overshoots_source (c : Bitmap) (y : nat) :
  bottom_ink_row c y -> (canvas_height c < y + 10)%nat ->
  canvas_height (handleExport c) = (y + 10)%nat /\
  (canvas_height c < canvas_height (handleExport c))%nat /\
  (forall X Y, (X < canvas_width c)%nat ->
     (canvas_height c <= Y)%nat -> (Y < y + 10)%nat ->
     getPixel (handleExport c) X Y = Some transparent).
Proof.
  intros Hb Hover. pose proof (export_height_found c y Hb) as Hh.
  split; [exact Hh|]. split; [lia|].
  intros X Y HX HY1 HY2.
  rewrite getPixel_inside by (rewrite ?export_width, ?Hh; assumption).
  unfold handleExport, drawImage, createCanvas; cbn [pix].
  destruct (Nat.ltb_spec Y (canvas_height c)); [lia|].
  rewrite andb_false_r. reflexivity.
Qed.

(** The overshoot on an 800 by 1400 canvas inked in its bottom row. *)
Lemma export_overshoots_source_witness :
  canvas_height (handleExport (ink_at 800 1400 0 1399)) = (1399 + 10)%nat /\
  (canvas_height (ink_at 800 1400 0 1399)
   < canvas_height (handleExport (ink_at 800 1400 0 1399)))%nat /\
  (forall X Y, (X < canvas_width (ink_at 800 1400 0 1399))%nat ->
     (canvas_height (ink_at 800 1400 0 1399) <= Y)%nat ->
     (Y < 1399 + 10)%nat ->
     getPixel (handleExport (ink_at 800 1400 0 1399)) X Y = Some transparent).
Proof.
  apply (export_overshoots_source (ink_at 800 1400 0 1399) 1399).
  - apply ink_at_bottom_row; lia.
  - cbn [ink_at canvas_height]; lia.
Defined.

(** C10, as stated, fails at its boundary: with the ink's bottom row at
    [y = h - 10] (here row 1390 of 1400) the exported image is exactly as
    high as the source, not higher. *)
Lemma export_height_at_boundary :
  bottom_ink_row (ink_at 800 1400 0 1390) 1390 /\
  (1390 >= canvas_height (ink_at 800 1400 0 1390) - 10)%nat /\
  ~ (canvas_height (ink_at 800 1400 0 1390)
     < canvas_height (handleExport (ink_at 800 1400 0 1390)))%nat.
Proof.
  assert (Hb : bottom_ink_row (ink_at 800 1400 0 1390) 1390)
    by (apply ink_at_bottom_row; lia).
  split; [exact Hb|].
  rewrite (export_height_found _ _ Hb). cbn [ink_at canvas_height].
  split; lia.
Qed.

(* ================================================================= *)
(** ** The component's state across events *)

Lemma sameDeps_refl (s : State) : sameDeps s s = true.
Proof.
  unfold sameDeps. rewrite !Z.eqb_refl. simpl.
  apply Qeq_bool_iff. reflexivity.
Qed.

Lemma commit_same (s : State) : commit s s = s.
Proof. unfold commit. rewrite sameDeps_refl. reflexivity. Qed.

(** The canvas effect replaces the canvas and its context, nothing else. *)
Lemma runEffect_fields (s : State) :
  tool (runEffect s) = tool s /\ color (runEffect s) = color s /\
  size (runEffect s) = size s /\ isDrawing (runEffect s) = isDrawing s /\
  lastPoint (runEffect s) = lastPoint s /\
  canvasSize (runEffect s) = canvasSize s /\ dpr (runEffect s) = dpr s.
Proof.
  unfold runEffect. destruct (reinit _ _ _) as [c k]. repeat split.
Qed.

Lemma commit_fields (old new : State) :
  tool (commit old new) = tool new /\ color (commit old new) = color new /\
  size (commit old new) = size new /\
  isDrawing (commit old new) = isDrawing new /\
  lastPoint (commit old new) = lastPoint new /\
  canvasSize (commit old new) = canvasSize new /\
  dpr (commit old new) = dpr new.
Proof.
  unfold commit. destruct (sameDeps old new);
    [repeat split | apply runEffect_fields].
Qed.

Lemma commit_canvasSize (old new : State) :
  canvasSize (commit old new) = canvasSize new.
Proof. apply commit_fields. Qed.

Lemma commit_isDrawing (old new : State) :
  isDrawing (commit old new) = isDrawing new.
Proof. apply commit_fields. Qed.

Lemma commit_lastPoint (old new : State) :
  lastPoint (commit old new) = lastPoint new.
Proof. apply commit_fields. Qed.

Lemma commit_dpr (old new : State) : dpr (commit old new) = dpr new.
Proof. apply commit_fields. Qed.

(** A handler that leaves the effect's dependencies alone is committed
    as it is. *)
Lemma commit_keep (old new : State) :
  canvasSize new = canvasSize old -> dpr new = dpr old ->
  commit old new = new.
Proof.
  intros Hs Hd. unfold commit, sameDeps. rewrite Hs, Hd, !Z.eqb_refl. simpl.
  assert (E : Qeq_bool (dpr old) (dpr old) = true)
    by (apply Qeq_bool_iff; reflexivity).
  rewrite E. reflexivity.
Qed.

Section Machine.
Context `{StrokeRaster}.

Lemma drawLine_fields (p q : Point) (s : State) :
  tool (drawLine p q s) = tool s /\ color (drawLine p q s) = color s /\
  size (drawLine p q s) = size s /\
  isDrawing (drawLine p q s) = isDrawing s /\
  lastPoint (drawLine p q s) = lastPoint s /\
  canvasSize (drawLine p q s) = canvasSize s /\
  dpr (drawLine p q s) = dpr s.
Proof. repeat split. Qed.

Lemma extendIfNeeded_height (y : Q) (s : State) :
  height (canvasSize (extendIfNeeded y s)) =
  if Qlt_bool (inject_Z (height (canvasSize s)) - y) 200
  then height (canvasSize s) + 1000 else height (canvasSize s).
Proof.
  unfold extendIfNeeded.
  destruct (Qlt_bool (inject_Z (height (canvasSize s)) - y) 200);
    reflexivity.
Qed.

Lemma onPointerMove_height (e : PointerEvent) (s : State) :
  isDrawing s = true -> lastPoint s <> None ->
  height (canvasSize (onPointerMove e s)) =
  height (canvasSize (extendIfNeeded (pt_y (localPoint e)) s)).
Proof.
  intros Hd Hl. unfold onPointerMove. rewrite Hd.
  destruct (lastPoint s) as [lp|]; [|contradiction].
  rewrite !extendIfNeeded_height. reflexivity.
Qed.

Lemma step_idle_move (s : State) (e : PointerEvent) :
  idle s -> step s (PointerMove e) = s.
Proof.
  intros Hi. unfold step, handle, onPointerMove. rewrite Hi.
  apply commit_same.
Qed.

Lemma step_ends_session (s : State) (ev : Event) :
  ends_session ev ->
  step s ev = setLastPoint None (setIsDrawing false s).
Proof.
  intros [-> | [-> | [-> | ->]]]; unfold step, handle;
    apply commit_keep; reflexivity.
Qed.

Lemma handle_height (s : State) (ev : Event) :
  height (canvasSize (handle ev s)) = height (canvasSize s) \/
  height (canvasSize (handle ev s)) = height (canvasSize s) + 1000.
Proof.
  destruct ev; simpl; try (left; reflexivity).
  - left. unfold handleResize. destruct container; reflexivity.
  - unfold onPointerMove.
    destruct (isDrawing s); [|left; reflexivity].
    destruct (lastPoint s); [|left; reflexivity].
    rewrite extendIfNeeded_height. cbn [canvasSize setLastPoint drawLine with_canvas].
    destruct (Qlt_bool _ 200); [right | left]; reflexivity.
Qed.

Lemma step_height (s : State) (ev : Event) :
  height (canvasSize (step s ev)) = height (canvasSize s) \/
  height (canvasSize (step s ev)) = height (canvasSize s) + 1000.
Proof. unfold step. rewrite commit_canvasSize. apply handle_height. Qed.

Lemma idle_preserved (s : State) (ev : Event) :
  idle s -> is_pointer_down ev = false -> idle (step s ev).
Proof.
  unfold idle, step. intros Hi Hev. rewrite commit_isDrawing.
  destruct ev; simpl in *; try discriminate; try assumption; try reflexivity.
  - unfold handleResize. destruct container; assumption.
  - unfold onPointerMove. rewrite Hi. assumption.
Qed.

Lemma idle_run (evs : list Event) (s : State) :
  idle s -> forallb (fun ev => negb (is_pointer_down ev)) evs = true ->
  idle (run s evs).
Proof.
  revert s; induction evs as [|ev evs IH]; intros s Hi Hall; [exact Hi|].
  simpl in Hall. apply andb_true_iff in Hall as [Hev Hall].
  simpl. apply IH; [|exact Hall].
  apply idle_preserved; [exact Hi | destruct (is_pointer_down ev); auto; discriminate].
Qed.

Lemma strokeSetup_lineWidth (t : Tool) (c : Pixel) (sz : Z) (k : Context) :
  lineWidth (current (strokeSetup t c sz k)) = clamp sz 1 64.
Proof.
  unfold strokeSetup, update, set_strokeStyle, set_globalCompositeOperation,
    set_lineWidth.
  assert (E : (0 <? clamp sz 1 64) = true)
    by (apply Z.ltb_lt; unfold clamp; lia).
  destruct t; cbn; rewrite E; reflexivity.
Qed.

End Machine.

(** C2: the growth check adds exactly 1000 to the logical height when
    [height - y < 200] and changes nothing otherwise; with height 400,
    pointer-down at (10,10) and a move to (10,210) grow the height to 1400,
    and a following move to (10,211) leaves it at 1400. *)
Theorem growth_check `{StrokeRaster} (s : State) (y : Q) :
  ((inject_Z (height (canvasSize s)) - y < 200)%Q ->
   height (canvasSize (extendIfNeeded y s)) = height (canvasSize s) + 1000 /\
   width (canvasSize (extendIfNeeded y s)) = width (canvasSize s)) /\
  (~ (inject_Z (height (canvasSize s)) - y < 200)%Q ->
   extendIfNeeded y s = s) /\
  (height (canvasSize s) = 400 ->
   let s1 := run s [PointerDown (pointerAt 10 10);
                    PointerMove (pointerAt 10 210)] in
   height (canvasSize s1) = 1400 /\
   height (canvasSize (step s1 (PointerMove (pointerAt 10 211)))) = 1400).
Proof.
  split; [|split].
  - intros Hlt. apply Qlt_bool_iff in Hlt. unfold extendIfNeeded.
    rewrite Hlt. split; reflexivity.
  - intros Hge. unfold extendIfNeeded.
    destruct (Qlt_bool _ 200) eqn:E; [|reflexivity].
    apply Qlt_bool_iff in E. contradiction.
  - intros H400.
    assert (H1 : height (canvasSize
                   (run s [PointerDown (pointerAt 10 10);
                           PointerMove (pointerAt 10 210)])) = 1400).
    { cbn [run fold_left]. unfold step at 1. rewrite commit_canvasSize.
      cbn [handle]. rewrite onPointerMove_height.
      - rewrite extendIfNeeded_height.
        unfold step; rewrite commit_canvasSize.
        cbn [handle startDraw canvasSize setLastPoint setIsDrawing].
        rewrite H400. reflexivity.
      - unfold step; rewrite commit_isDrawing. reflexivity.
      - unfold step; rewrite commit_lastPoint. discriminate. }
    cbv zeta. split; [exact H1|].
    set (s1 := run s _) in *.
    unfold step at 1. rewrite commit_canvasSize. cbn [handle].
    unfold onPointerMove.
    destruct (isDrawing s1); [|exact H1].
    destruct (lastPoint s1); [|exact H1].
    rewrite extendIfNeeded_height.
    cbn [canvasSize setLastPoint drawLine with_canvas].
    rewrite H1. reflexivity.
Qed.

(** The growth check run on a state of height 400. *)
Lemma growth_check_witness :
  let s := setCanvasSize (fun p => mkSize (width p) 400) initialState in
  (inject_Z (height (canvasSize s)) - 210 < 200)%Q /\
  height (canvasSize s) = 400 /\
  height (canvasSize (extendIfNeeded 210 s)) = height (canvasSize s) + 1000 /\
  (let s1 := run (H := endpointRaster) s
               [PointerDown (pointerAt 10 10);
                PointerMove (pointerAt 10 210)] in
   height (canvasSize s1) = 1400 /\
   height (canvasSize (step (H := endpointRaster) s1
                         (PointerMove (pointerAt 10 211)))) = 1400).
Proof.
  intros s.
  destruct (growth_check (H := endpointRaster) s 210) as (Hgrow & _ & Hrun).
  split; [reflexivity|]. split; [reflexivity|].
  split; [apply Hgrow; reflexivity|].
  exact (Hrun eq_refl).
Defined.

(** C5: a pointer-move in the idle state changes nothing, the pixel buffer
    included; each of pointer-up, -cancel, -leave and -out leaves the machine
    idle with no last point and the buffer as it was; and after such an
    event, whatever follows short of a pointer-down, a pointer-move still
    changes nothing. *)
Theorem no_drawing_while_idle `{StrokeRaster} (s : State) :
  (forall e, idle s -> step s (PointerMove e) = s) /\
  (forall ev, ends_session ev ->
     idle (step s ev) /\ lastPoint (step s ev) = None /\
     canvas (step s ev) = canvas s) /\
  (forall ev evs e, ends_session ev ->
     forallb (fun ev' => negb (is_pointer_down ev')) evs = true ->
     step (run (step s ev) evs) (PointerMove e) = run (step s ev) evs).
Proof.
  split; [|split].
  - intros e Hi. apply step_idle_move, Hi.
  - intros ev Hev. rewrite (step_ends_session s ev Hev). repeat split.
  - intros ev evs e Hev Hall. apply step_idle_move.
    apply idle_run; [|exact Hall].
    rewrite (step_ends_session s ev Hev). reflexivity.
Qed.

(** The idle machine at the first render, and a session ended by
    pointer-leave. *)
Lemma no_drawing_while_idle_witness :
  idle initialState /\
  step (H := endpointRaster) initialState (PointerMove (pointerAt 5 5))
  = initialState /\
  ends_session PointerLeave /\
  lastPoint (step (H := endpointRaster)
               (startDraw (pointerAt 1 1) initialState) PointerLeave) = None.
Proof.
  split; [reflexivity|]. split.
  - apply (no_drawing_while_idle (H := endpointRaster) initialState).
    reflexivity.
  - split; [right; right; left; reflexivity|].
    apply (no_drawing_while_idle (H := endpointRaster)
             (startDraw (pointerAt 1 1) initialState)).
    right; right; left; reflexivity.
Defined.

(** C6: over every sequence of events (resize, pointer events with their
    growth checks, tool changes, clear, export) the logical height never
    decreases: a resize keeps the height, and any single event either keeps
    it or adds 1000. *)
Theorem height_never_decreases `{StrokeRaster} (s : State)
    (evs : list Event) :
  height (canvasSize s) <= height (canvasSize (run s evs)) /\
  (forall r c, height (canvasSize (step s (Resize r c)))
               = height (canvasSize s)) /\
  (forall ev, height (canvasSize (step s ev)) = height (canvasSize s) \/
              height (canvasSize (step s ev)) = height (canvasSize s) + 1000).
Proof.
  split; [|split].
  - revert s; induction evs as [|ev evs IH]; intros s; [simpl; lia|].
    change (run s (ev :: evs)) with (run (step s ev) evs).
    specialize (IH (step s ev)).
    destruct (step_height s ev) as [E|E]; lia.
  - intros r c. unfold step. rewrite commit_canvasSize. cbn [handle].
    unfold handleResize. destruct c; reflexivity.
  - apply step_height.
Qed.




(** C9: [drawLine] strokes with the line width [clamp size 1 64], which
    lies in [1,64]: a requested 200 is drawn 64 wide and a requested 0 is
    drawn 1 wide. *)
Theorem stroke_width_clamped `{StrokeRaster} (s : State) (from to : Point) :
  canvas (drawLine from to s)
  = stroke (strokeState s) (coords from) (coords to) (canvas s) /\
  lineWidth (strokeState s) = clamp (size s) 1 64 /\
  1 <= lineWidth (strokeState s) <= 64 /\
  lineWidth (strokeState (setSize 200 s)) = 64 /\
  lineWidth (strokeState (setSize 0 s)) = 1.
Proof.
  unfold strokeState. rewrite !strokeSetup_lineWidth.
  split; [reflexivity|]. split; [reflexivity|].
  split; [unfold clamp; lia|]. split; reflexivity.
Qed.

(* ================================================================= *)
(** ** Pen and eraser compositing *)





Lemma source_over_canonical (s d : Pixel) (c : Z) :
  alpha (source_over s d c) = 0 -> source_over s d c = transparent.
Proof.
  unfold source_over.
  destruct (Z.eqb_spec (alpha s * c / 255
                        + alpha d * (255 - alpha s * c / 255) / 255) 0);
    [reflexivity | cbn [alpha]; contradiction].
Qed.

Lemma destination_out_canonical (s d : Pixel) (c : Z) :
  alpha (destination_out s d c) = 0 -> destination_out s d c = transparent.
Proof.
  unfold destination_out.
  destruct (Z.eqb_spec (alpha d * (255 - alpha s * c / 255) / 255) 0);
    [reflexivity | cbn [alpha]; contradiction].
Qed.

Lemma composite_canonical (op : CompositeOp) (s d : Pixel) (c : Z) :
  alpha (composite op s d c) = 0 -> composite op s d c = transparent.
Proof.
  destruct op; [apply source_over_canonical | apply destination_out_canonical].
Qed.

Lemma strokeSetup_saved (t : Tool) (c : Pixel) (sz : Z) (k : Context) :
  saved (strokeSetup t c sz k) = saved k.
Proof. destruct t; reflexivity. Qed.

Lemma strokeSetup_transform (t : Tool) (c : Pixel) (sz : Z) (k : Context) :
  transform (current (strokeSetup t c sz k)) = transform (current k).
Proof.
  unfold strokeSetup, update, set_strokeStyle, set_globalCompositeOperation,
    set_lineWidth.
  destruct t; cbn; destruct (0 <? clamp sz 1 64); reflexivity.
Qed.

Lemma strokeState_eraser (s : State) :
  tool s = eraser ->
  strokeState s =
  mkDrawState JoinRound CapRound (clamp (size s) 1 64) DestinationOut
              (mkPixel 0 0 0 255) (transform (current (ctx s))).
Proof.
  intros Ht. unfold strokeState, strokeSetup. rewrite Ht.
  assert (E : (0 <? clamp (size s) 1 64) = true)
    by (apply Z.ltb_lt; unfold clamp; lia).
  unfold update, set_strokeStyle, set_globalCompositeOperation, set_lineWidth.
  cbn. rewrite E. reflexivity.
Qed.

Lemma strokeState_pen (s : State) :
  tool s = pen ->
  strokeState s =
  mkDrawState JoinRound CapRound (clamp (size s) 1 64) SourceOver
              (color s) (transform (current (ctx s))).
Proof.
  intros Ht. unfold strokeState, strokeSetup. rewrite Ht.
  assert (E : (0 <? clamp (size s) 1 64) = true)
    by (apply Z.ltb_lt; unfold clamp; lia).
  unfold update, set_strokeStyle, set_globalCompositeOperation, set_lineWidth.
  cbn. rewrite E. reflexivity.
Qed.

Section Strokes.
Context `{StrokeRaster}.

Lemma drawLine_pixel (p q : Point) (s : State) (X Y : nat) :
  pix (canvas (drawLine p q s)) X Y =
  composite (globalCompositeOperation (strokeState s))
    (strokeStyle (strokeState s)) (pix (canvas s) X Y)
    (coverage (transform (strokeState s)) (lineWidth (strokeState s))
       (lineCap (strokeState s)) (lineJoin (strokeState s))
       (coords p) (coords q) X Y).
Proof. reflexivity. Qed.

(** With nothing saved on the context's stack, the [restore] that ends
    [drawLine] pops nothing, and the transform stays in force. *)
Lemma drawLine_ctx (p q : Point) (s : State) :
  saved (ctx s) = [] ->
  saved (ctx (drawLine p q s)) = [] /\
  transform (current (ctx (drawLine p q s))) = transform (current (ctx s)).
Proof.
  intros Hs. unfold drawLine. cbn [ctx with_canvas]. unfold restore.
  rewrite strokeSetup_saved, Hs. rewrite strokeSetup_saved, Hs.
  split; [reflexivity | apply strokeSetup_transform].
Qed.






End Strokes.




(** At a pixel the stroke covers only in part (an anti-aliased edge), the
    same pen and eraser strokes leave ink behind: half coverage of an opaque
    colour on a clear pixel, erased with half coverage, keeps about a
    quarter of full alpha. *)
Remark partial_coverage_leaves_ink (c : Pixel) :
  alpha c = 255 ->
  alpha (destination_out (mkPixel 0 0 0 255)
           (source_over c transparent 128) 128) <> 0.
Proof.
  intros Hc. unfold source_over. rewrite Hc. cbn. discriminate.
Qed.

(** [drawLine] does not skip a zero-length segment: it strokes the path
    from [p] to [p] with round caps and the clamped width.  Which pixels that
    paints is the host's affair: one rasteriser paints a dot, another
    paints nothing. *)
Lemma drawLine_zero_length `{StrokeRaster} (p : Point) (s : State) :
  canvas (drawLine p p s)
  = stroke (strokeState s) (coords p) (coords p) (canvas s) /\
  lineCap (strokeState s) = CapRound /\
  lineJoin (strokeState s) = JoinRound.
Proof.
  split; [reflexivity|].
  unfold strokeState, strokeSetup, update, set_strokeStyle,
    set_globalCompositeOperation, set_lineWidth.
  destruct (tool s); cbn; destruct (0 <? clamp (size s) 1 64);
    split; reflexivity.
Qed.

Lemma zero_length_dot_depends_on_host :
  alpha (pix (canvas (drawLine (H := endpointRaster) (mkPoint 50 25)
                        (mkPoint 50 25) initialState)) 50 25) = 255 /\
  forall X Y,
    pix (canvas (drawLine (H := pruningRaster) (mkPoint 50 25)
                   (mkPoint 50 25) initialState)) X Y = transparent.
Proof.
  split; [reflexivity|]. intros X Y. reflexivity.
Qed.

(* ================================================================= *)
(** ** Reallocation of the canvas *)

(** The destination extent [prev.width / dpr], scaled by the transform
    [dpr], is [prev.width] device pixels again. *)
Lemma extent_roundtrip (w : nat) (r : Q) :
  (0 < r)%Q -> (Qnat w / r * r == Qnat w)%Q.
Proof.
  intros Hr. field. intros E. rewrite E in Hr. exact (Qlt_irrefl _ Hr).
Qed.

Lemma Qlt_bool_extent (X w : nat) (r : Q) :
  (0 < r)%Q -> Qlt_bool (Qnat X) (Qnat w / r * r) = (X <? w)%nat.
Proof.
  intros Hr. destruct (Nat.ltb_spec X w) as [Hlt|Hge].
  - apply Qlt_bool_iff. rewrite extent_roundtrip by exact Hr.
    apply Qnat_lt; exact Hlt.
  - destruct (Qlt_bool _ _) eqn:E; [|reflexivity].
    apply Qlt_bool_iff in E. rewrite extent_roundtrip in E by exact Hr.
    apply Qnat_lt in E. lia.
Qed.

Lemma sample_index (X w : nat) (r : Q) :
  (0 < r)%Q -> (0 < w)%nat ->
  Z.to_nat (Qfloor (Qnat X * Qnat w / (Qnat w / r * r))) = X.
Proof.
  intros Hr Hw.
  assert (E : (Qnat X * Qnat w / (Qnat w / r * r) == Qnat X)%Q).
  { field. split.
    - intros E. rewrite E in Hr. exact (Qlt_irrefl _ Hr).
    - apply Qnat_pos; exact Hw. }
  rewrite E. unfold Qnat. rewrite Qfloor_Z. apply Nat2Z.id.
Qed.

Lemma reinit_size (c : Bitmap) (sz : Size) (r : Q) :
  canvas_width (fst (reinit c sz r)) = physical (width sz) r /\
  canvas_height (fst (reinit c sz r)) = physical (height sz) r.
Proof.
  unfold reinit. destruct (_ && _); split; reflexivity.
Qed.

(** What the canvas effect restores: whatever the old and new scale
    factors, device pixel [(X, Y)] of the new canvas is device pixel
    [(X, Y)] of the old one, and transparent outside the old extent. *)
Lemma reinit_pixel (c : Bitmap) (sz : Size) (r : Q) (X Y : nat) :
  (0 < r)%Q -> canonical c ->
  pix (fst (reinit c sz r)) X Y =
  if (X <? canvas_width c)%nat && (Y <? canvas_height c)%nat
  then pix c X Y else transparent.
Proof.
  intros Hr Hc. unfold reinit.
  cbn [drawImage createCanvas canvas_width canvas_height].
  destruct (Nat.ltb_spec 0 (canvas_width c)) as [Hw|Hw];
    destruct (Nat.ltb_spec 0 (canvas_height c)) as [Hh|Hh];
    cbn [andb fst drawImageScaled pix canvas_width canvas_height].
  - rewrite !Qlt_bool_extent by exact Hr.
    destruct (X <? canvas_width c)%nat eqn:EX;
      destruct (Y <? canvas_height c)%nat eqn:EY; cbn [andb];
      try reflexivity.
    rewrite !sample_index by assumption.
    cbn [drawImage createCanvas pix canvas_width canvas_height].
    rewrite EX, EY. cbn [andb].
    rewrite (source_over_transparent (pix c X Y)) by apply Hc.
    apply source_over_transparent, Hc.
  - destruct (Nat.ltb_spec Y (canvas_height c)); [lia|].
    rewrite andb_false_r. reflexivity.
  - destruct (Nat.ltb_spec X (canvas_width c)); [lia|]. reflexivity.
  - destruct (Nat.ltb_spec X (canvas_width c)); [lia|]. reflexivity.
Qed.

Lemma reinit_canonical (c : Bitmap) (sz : Size) (r : Q) :
  canonical (fst (reinit c sz r)).
Proof.
  intros X Y. unfold reinit.
  destruct (_ && _); cbn [fst drawImageScaled createCanvas pix];
    [|reflexivity].
  destruct (_ && _); [apply source_over_canonical | reflexivity].
Qed.

Lemma runEffect_invariant (s : State) :
  canonical (canvas (runEffect s)) /\ saved (ctx (runEffect s)) = [].
Proof.
  unfold runEffect. pose proof (reinit_canonical (canvas s) (canvasSize s) (dpr s)) as Hc.
  assert (Hk : saved (snd (reinit (canvas s) (canvasSize s) (dpr s))) = [])
    by (unfold reinit; destruct (_ && _); reflexivity).
  destruct (reinit _ _ _) as [c k]. split; assumption.
Qed.

Lemma commit_invariant (old new : State) :
  canonical (canvas new) -> saved (ctx new) = [] ->
  canonical (canvas (commit old new)) /\ saved (ctx (commit old new)) = [].
Proof.
  intros Hc Hs. unfold commit.
  destruct (sameDeps old new); [split; assumption | apply runEffect_invariant].
Qed.

(** Every state of the mounted component has a canonical bitmap and an
    empty stack of saved drawing states. *)
Lemma reachable_canonical `{StrokeRaster} (s : State) :
  reachable s -> canonical (canvas s) /\ saved (ctx s) = [].
Proof.
  induction 1 as [r c | s ev Hr [Hc Hs]].
  - unfold mount. apply commit_invariant;
      destruct (runEffect_invariant initialState) as [Hc Hs];
      unfold handleResize; destruct c; assumption.
  - unfold step. apply commit_invariant.
    + destruct ev; cbn [handle]; try exact Hc.
      * unfold handleResize. destruct container; exact Hc.
      * unfold onPointerMove.
        destruct (isDrawing s); [|exact Hc].
        destruct (lastPoint s); [|exact Hc].
        unfold extendIfNeeded. destruct (Qlt_bool _ 200);
          intros X Y; apply composite_canonical.
      * intros X Y. unfold handleClear, clearRect. cbn [canvas with_canvas pix].
        destruct (_ && _); [reflexivity | apply Hc].
    + destruct ev; cbn [handle]; try exact Hs.
      * unfold handleResize. destruct container; exact Hs.
      * unfold onPointerMove.
        destruct (isDrawing s); [|exact Hs].
        destruct (lastPoint s); [|exact Hs].
        unfold extendIfNeeded. destruct (Qlt_bool _ 200);
          cbn [ctx setCanvasSize setLastPoint];
          apply drawLine_ctx; exact Hs.
Qed.

Lemma runEffect_canvas (s : State) :
  canvas (runEffect s) = fst (reinit (canvas s) (canvasSize s) (dpr s)).
Proof. unfold runEffect. destruct (reinit _ _ _); reflexivity. Qed.

Lemma handleResize_dpr_pos (r : Q) (c : option Z) (s : State) :
  (0 < dpr (handleResize r c s))%Q.
Proof.
  assert (E : (0 < Qmax2 (if Qeq_bool r 0 then 1 else r) 1)%Q).
  { unfold Qmax2. destruct (Qle_bool _ 1) eqn:E; [reflexivity|].
    apply Qlt_trans with 1%Q; [reflexivity|].
    apply Qnot_le_lt. intros Hle. apply Qle_bool_iff in Hle. congruence. }
  unfold handleResize. destruct c; exact E.
Qed.

Lemma handleResize_canvas (r : Q) (c : option Z) (s : State) :
  canvas (handleResize r c s) = canvas s.
Proof. unfold handleResize. destruct c; reflexivity. Qed.

(** A resize that changes the size or the scale factor reallocates the
    canvas, and the new canvas holds the old one device pixel for device
    pixel, whatever the two scale factors are. *)
Lemma resize_copies_device_pixels `{StrokeRaster} (s : State) (r : Q)
    (c : option Z) (X Y : nat) :
  canonical (canvas s) ->
  sameDeps s (handleResize r c s) = false ->
  pix (canvas (step s (Resize r c))) X Y =
  if (X <? canvas_width (canvas s))%nat && (Y <? canvas_height (canvas s))%nat
  then pix (canvas s) X Y else transparent.
Proof.
  intros Hc Hdeps. unfold step, commit. cbn [handle]. rewrite Hdeps.
  rewrite runEffect_canvas, handleResize_canvas.
  apply reinit_pixel; [apply handleResize_dpr_pos | exact Hc].
Qed.

(** C3 at a failing input, with the end-point rasteriser as host.  Mounted
    at pixel ratio 1 in a container 1632 wide (logical 1600 by 1400, canvas
    1600 by 1400), a pen stroke from (1000,1000) to (1010,1000) inks device
    pixel (1000,1000).  When the pixel ratio becomes 2 the canvas is
    reallocated at 3200 by 2800; the stroke's logical path is now rendered
    at device pixel (2000,2000), and that pixel is transparent: the old ink
    still sits at device pixel (1000,1000), which is logical (500,500).
    For any host this is what [resize_copies_device_pixels] gives. *)
Theorem scale_change_displaces_stroke :
  let s1 := run (H := endpointRaster) (mount 1 (Some 1632))
              [PointerDown (pointerAt 1000 1000);
               PointerMove (pointerAt 1010 1000);
               PointerUp] in
  let s2 := step (H := endpointRaster) s1 (Resize 2 (Some 1632)) in
  (canvasSize s1 = mkSize 1600 1400 /\ dpr s1 = 1%Q /\
   canvas_width (canvas s1) = 1600%nat /\
   canvas_height (canvas s1) = 1400%nat /\
   coverage (StrokeRaster := endpointRaster) (transform (current (ctx s1)))
     (clamp (size s1) 1 64) CapRound JoinRound
     (coords (mkPoint 1000 1000)) (coords (mkPoint 1010 1000))
     1000 1000 = 255 /\
   alpha (pix (canvas s1) 1000 1000) = 255) /\
  (canvasSize s2 = mkSize 1600 1400 /\ dpr s2 = 2%Q /\
   canvas_width (canvas s2) = 3200%nat /\
   canvas_height (canvas s2) = 2800%nat /\
   coverage (StrokeRaster := endpointRaster) (transform (current (ctx s2)))
     (clamp (size s2) 1 64) CapRound JoinRound
     (coords (mkPoint 1000 1000)) (coords (mkPoint 1010 1000))
     2000 2000 = 255 /\
   alpha (pix (canvas s2) 2000 2000) = 0 /\
   alpha (pix (canvas s2) 1000 1000) = 255).
Proof.
  cbv zeta. repeat split; vm_compute; reflexivity.
Qed.

(* ================================================================= *)
(** ** Further properties of the code *)

(** *** [clamp] *)

(** X1: with [min <= max], [clamp] lands in [[min, max]], is the identity
    exactly on that interval and clamps again to itself; with the bounds
    the wrong way round it returns [min], whatever the value. *)
Theorem clamp_spec (v lo hi : Z) :
  (lo <= hi ->
   lo <= clamp v lo hi <= hi /\
   (clamp v lo hi = v <-> lo <= v <= hi) /\
   clamp (clamp v lo hi) lo hi = clamp v lo hi) /\
  (hi < lo -> clamp v lo hi = lo).
Proof. unfold clamp. split; intros; repeat split; lia. Qed.

(** [clamp] at the brush bounds and with inverted bounds. *)
Lemma clamp_spec_witness :
  1 <= 64 /\ 1 <= clamp 70 1 64 <= 64 /\
  (clamp 70 1 64 = 70 <-> 1 <= 70 <= 64) /\
  64 < 70 /\ clamp 5 70 64 = 70.
Proof.
  destruct (clamp_spec 70 1 64) as [Hin _].
  destruct (clamp_spec 5 70 64) as [_ Hout].
  destruct (Hin ltac:(lia)) as (Hr & Hid & _).
  split; [lia|]. split; [exact Hr|]. split; [exact Hid|].
  split; [lia | apply Hout; lia].
Defined.

(** *** The export trimmer *)

Lemma lastNonEmptyRow_bound (img : list Z) (w n : nat) :
  (lastNonEmptyRow img w n <= Nat.pred n)%nat.
Proof.
  induction n as [|n IH]; [reflexivity|]. simpl.
  destruct (rowHasInk img w n); [lia|]. lia.
Qed.

(** Below the row the scan stops at, no row has ink. *)
Lemma lastNonEmptyRow_above (img : list Z) (w n y : nat) :
  (lastNonEmptyRow img w n < y)%nat -> (y < n)%nat ->
  rowHasInk img w y = false.
Proof.
  induction n as [|n IH]; intros Hlt Hy; [lia|]. simpl in Hlt.
  destruct (rowHasInk img w n) eqn:E.
  - lia.
  - destruct (Nat.eq_dec y n) as [->|Hne]; [exact E | apply IH; lia].
Qed.

Lemma export_height_scan (c : Bitmap) :
  canvas_height (handleExport c)
  = (lastNonEmptyRow (getImageData c) (canvas_width c) (canvas_height c)
     + 10)%nat.
Proof.
  unfold handleExport, drawImage, createCanvas; cbn [canvas_height]. lia.
Qed.

(** X2: for a canvas that has pixels, the exported image is never less
    than 10 rows high, so the [Math.max(1, ...)] guard never decides, and
    never more than 9 rows higher than the canvas. *)
Theorem export_height_bounds (c : Bitmap) :
  (0 < canvas_width c)%nat -> (0 < canvas_height c)%nat ->
  (10 <= canvas_height (handleExport c))%nat /\
  (canvas_height (handleExport c) <= canvas_height c + 9)%nat.
Proof.
  intros _ Hh. rewrite export_height_scan.
  pose proof (lastNonEmptyRow_bound (getImageData c) (canvas_width c)
                (canvas_height c)).
  split; lia.
Qed.

(** The bounds on an 800 by 1400 canvas inked in its top row. *)
Lemma export_height_bounds_witness :
  (0 < canvas_width (ink_at 800 1400 0 0))%nat /\
  (0 < canvas_height (ink_at 800 1400 0 0))%nat /\
  (10 <= canvas_height (handleExport (ink_at 800 1400 0 0)))%nat /\
  (canvas_height (handleExport (ink_at 800 1400 0 0))
   <= canvas_height (ink_at 800 1400 0 0) + 9)%nat.
Proof.
  assert (Hw : (0 < canvas_width (ink_at 800 1400 0 0))%nat)
    by (apply Nat.ltb_lt; reflexivity).
  assert (Hh : (0 < canvas_height (ink_at 800 1400 0 0))%nat)
    by (apply Nat.ltb_lt; reflexivity).
  split; [exact Hw|]. split; [exact Hh|].
  exact (export_height_bounds (ink_at 800 1400 0 0) Hw Hh).
Defined.

(** X3: trimming loses no ink: every pixel of the source with non-zero
    alpha is in the exported image, at the same place and unchanged. *)
Theorem export_keeps_ink (c : Bitmap) (X Y : nat) :
  (X < canvas_width c)%nat -> (Y < canvas_height c)%nat ->
  alpha (pix c X Y) <> 0 ->
  getPixel (handleExport c) X Y = Some (pix c X Y).
Proof.
  intros HX HY Hink.
  assert (Hrow : rowHasInk (getImageData c) (canvas_width c) Y = true).
  { apply rowHasInk_spec; [exact HY|]. exists X. split; assumption. }
  assert (HYr : (Y <= lastNonEmptyRow (getImageData c) (canvas_width c)
                        (canvas_height c))%nat).
  { destruct (Nat.le_gt_cases Y
                (lastNonEmptyRow (getImageData c) (canvas_width c)
                   (canvas_height c))) as [Hle|Hgt]; [exact Hle|].
    rewrite (lastNonEmptyRow_above _ _ _ Y Hgt HY) in Hrow. discriminate. }
  pose proof (export_height_scan c) as Hh.
  rewrite getPixel_inside by (rewrite ?export_width, ?Hh; lia).
  unfold handleExport, drawImage, createCanvas; cbn [pix].
  destruct (Nat.ltb_spec X (canvas_width c)); [|lia].
  destruct (Nat.ltb_spec Y (canvas_height c)); [|lia]. cbn [andb].
  rewrite source_over_transparent; [reflexivity | contradiction].
Qed.

(** A pixel of the bottom row kept by the export of an 800 by 1400 canvas. *)
Lemma export_keeps_ink_witness :
  getPixel (handleExport (ink_at 800 1400 3 1399)) 3 1399
  = Some (pix (ink_at 800 1400 3 1399) 3 1399).
Proof.
  apply (export_keeps_ink (ink_at 800 1400 3 1399) 3 1399).
  - apply Nat.ltb_lt; reflexivity.
  - apply Nat.ltb_lt; reflexivity.
  - discriminate.
Defined.

Lemma blank_of_all_transparent (c : Bitmap) : all_transparent c -> blank c.
Proof.
  intros Ht y Hy [X [HX Ha]]. rewrite (Ht X y HX Hy) in Ha.
  apply Ha; reflexivity.
Qed.

Lemma export_of_all_transparent (c : Bitmap) :
  all_transparent c ->
  canvas_height (handleExport c) = 10%nat /\
  all_transparent (handleExport c).
Proof.
  intros Ht. split.
  - apply export_height_blank, blank_of_all_transparent, Ht.
  - intros X Y _ _. unfold handleExport, drawImage, createCanvas; cbn [pix].
    destruct (Nat.ltb_spec X (canvas_width c)); [|reflexivity].
    destruct (Nat.ltb_spec Y (canvas_height c)); [|reflexivity].
    cbn [andb]. rewrite (Ht X Y) by assumption. reflexivity.
Qed.

(** *** Invariants of the mounted component *)

Lemma Qmax2_ge_1 (x : Q) : (1 <= Qmax2 x 1)%Q.
Proof.
  unfold Qmax2. destruct (Qle_bool x 1) eqn:E; [apply Qle_refl|].
  apply Qlt_le_weak, Qnot_le_lt. intros Hle.
  apply Qle_bool_iff in Hle. congruence.
Qed.

Lemma Qle_mult_ge_1 (a r : Q) : (0 <= a)%Q -> (1 <= r)%Q -> (a <= a * r)%Q.
Proof.
  intros Ha Hr. pose proof (Qmult_le_compat_r 1 r a Hr Ha) as Hle.
  rewrite Qmult_1_l, Qmult_comm in Hle. exact Hle.
Qed.

Lemma physical_comp (v : Z) (r r' : Q) :
  (r == r')%Q -> physical v r = physical v r'.
Proof. intros E. unfold physical. rewrite E. reflexivity. Qed.

(** At a scale factor of at least 1 the canvas has at least as many device
    pixels as logical units. *)
Lemma physical_ge (v : Z) (r : Q) :
  0 <= v -> (1 <= r)%Q -> v <= Z.of_nat (physical v r).
Proof.
  intros Hv Hr. unfold physical.
  assert (Hle : (inject_Z v <= inject_Z v * r)%Q).
  { apply Qle_mult_ge_1; [|exact Hr]. rewrite Zle_Qle in Hv. exact Hv. }
  apply Qfloor_resp_le in Hle. rewrite Qfloor_Z in Hle.
  rewrite Z2Nat.id by lia. exact Hle.
Qed.

Lemma runEffect_ctx (s : State) :
  ctx (runEffect s) = update (setTransform (dpr s)) resetContext.
Proof.
  unfold runEffect.
  assert (E : snd (reinit (canvas s) (canvasSize s) (dpr s))
              = update (setTransform (dpr s)) resetContext)
    by (unfold reinit; destruct (_ && _); reflexivity).
  destruct (reinit _ _ _) as [c k]. exact E.
Qed.

Lemma runEffect_canvas_ok (s : State) : canvas_ok (runEffect s).
Proof.
  unfold canvas_ok. rewrite runEffect_canvas, runEffect_ctx.
  destruct (runEffect_fields s) as (_ & _ & _ & _ & _ & Hs & Hd).
  rewrite Hs, Hd.
  destruct (reinit_size (canvas s) (canvasSize s) (dpr s)) as [Hw Hh].
  split; [exact Hw | split; [exact Hh | reflexivity]].
Qed.

(** A commit keeps the canvas in step with the logical size: either the
    dependencies are the same and nothing moves, or the effect reallocates. *)
Lemma commit_canvas_ok (old new : State) :
  canvas_ok old ->
  canvas_width (canvas new) = canvas_width (canvas old) ->
  canvas_height (canvas new) = canvas_height (canvas old) ->
  transform (current (ctx new)) = transform (current (ctx old)) ->
  canvas_ok (commit old new).
Proof.
  intros (Hw & Hh & Ht) Ew Eh Et. unfold commit.
  destruct (sameDeps old new) eqn:E; [|apply runEffect_canvas_ok].
  unfold sameDeps in E. apply andb_true_iff in E as [E Ed].
  apply andb_true_iff in E as [Ewd Eht].
  apply Z.eqb_eq in Ewd, Eht. apply Qeq_bool_iff in Ed.
  unfold canvas_ok. rewrite Ew, Eh, Et, Hw, Hh, <- Ewd, <- Eht.
  split; [apply physical_comp, Ed | split; [apply physical_comp, Ed|]].
  rewrite Ht. exact Ed.
Qed.

Section Invariants.
Context `{StrokeRaster}.

Lemma handle_logical_ok (ev : Event) (s : State) :
  logical_ok s -> logical_ok (handle ev s).
Proof.
  intros Hl. pose proof Hl as (Hw & (k & Hk & Hh) & Hd).
  destruct ev; cbn [handle]; try exact Hl.
  - unfold handleResize, logical_ok.
    destruct container as [cw|];
      cbn [canvasSize dpr setCanvasSize setDpr width height].
    + split; [lia | split; [exists k; split; assumption | apply Qmax2_ge_1]].
    + split; [exact Hw|].
      split; [exists k; split; assumption | apply Qmax2_ge_1].
  - unfold onPointerMove.
    destruct (isDrawing s); [|exact Hl].
    destruct (lastPoint s); [|exact Hl].
    unfold extendIfNeeded, logical_ok.
    destruct (Qlt_bool _ 200);
      cbn [canvasSize dpr setCanvasSize setLastPoint drawLine with_canvas
           width height].
    + split; [exact Hw | split; [exists (k + 1); split; lia | exact Hd]].
    + split; [exact Hw | split; [exists k; split; assumption | exact Hd]].
Qed.

Lemma handle_session_ok (ev : Event) (s : State) :
  session_ok s -> session_ok (handle ev s).
Proof.
  unfold session_ok. intros Hs.
  destruct ev; cbn [handle]; try exact Hs;
    try (cbn; split; [discriminate | intros Hn; contradiction Hn; reflexivity]).
  - unfold handleResize. destruct container; exact Hs.
  - cbn. split; [discriminate | reflexivity].
  - unfold onPointerMove.
    destruct (isDrawing s) eqn:Ed; [|rewrite Ed; exact Hs].
    destruct (lastPoint s) eqn:El; [|rewrite Ed, El; exact Hs].
    unfold extendIfNeeded. destruct (Qlt_bool _ 200); cbn;
      (split; [discriminate | intros _; exact Ed]).
Qed.

Lemma handle_canvas_frame (ev : Event) (s : State) :
  saved (ctx s) = [] ->
  canvas_width (canvas (handle ev s)) = canvas_width (canvas s) /\
  canvas_height (canvas (handle ev s)) = canvas_height (canvas s) /\
  transform (current (ctx (handle ev s))) = transform (current (ctx s)).
Proof.
  intros Hs. destruct ev; cbn [handle]; try (repeat split; reflexivity).
  - unfold handleResize. destruct container; repeat split; reflexivity.
  - unfold onPointerMove.
    destruct (isDrawing s); [|repeat split; reflexivity].
    destruct (lastPoint s) as [lp|]; [|repeat split; reflexivity].
    assert (Ht := proj2 (drawLine_ctx lp (localPoint e) s Hs)).
    unfold extendIfNeeded. destruct (Qlt_bool _ 200);
      repeat split; try reflexivity; exact Ht.
Qed.

Lemma reachable_invariant (s : State) :
  reachable s -> logical_ok s /\ canvas_ok s /\ session_ok s.
Proof.
  induction 1 as [r c | s ev Hr (Hl & Hc & Hs)].
  - assert (Hl0 : logical_ok (runEffect initialState)).
    { destruct (runEffect_fields initialState) as (_ & _ & _ & _ & _ & Es & Ed).
      unfold logical_ok. rewrite Es, Ed. cbn.
      split; [lia | split; [exists 0; split; lia | apply Qle_refl]]. }
    assert (Hs0 : session_ok (runEffect initialState)).
    { destruct (runEffect_fields initialState) as (_ & _ & _ & Ei & El & _).
      unfold session_ok. rewrite Ei, El. cbn.
      split; [discriminate | intros Hn; contradiction Hn; reflexivity]. }
    pose proof (handle_logical_ok (Resize r c) _ Hl0) as Hl1.
    pose proof (handle_session_ok (Resize r c) _ Hs0) as Hs1.
    cbn [handle] in Hl1, Hs1. unfold mount.
    destruct (commit_fields (runEffect initialState)
                (handleResize r c (runEffect initialState)))
      as (_ & _ & _ & Ei & El & Es & Ed).
    split; [|split].
    + unfold logical_ok. rewrite Es, Ed. exact Hl1.
    + apply commit_canvas_ok; [apply runEffect_canvas_ok | | |];
        unfold handleResize; destruct c; reflexivity.
    + unfold session_ok. rewrite Ei, El. exact Hs1.
  - destruct (reachable_canonical s Hr) as [_ Hsv].
    destruct (handle_canvas_frame ev s Hsv) as (Ew & Eh & Et).
    unfold step.
    destruct (commit_fields s (handle ev s)) as (_ & _ & _ & Ei & El & Es & Ed).
    split; [|split].
    + unfold logical_ok. rewrite Es, Ed. apply handle_logical_ok, Hl.
    + apply commit_canvas_ok; assumption.
    + unfold session_ok. rewrite Ei, El. apply handle_session_ok, Hs.
Qed.

End Invariants.

(** X4: in every reachable state the logical width is at least 800, the
    logical height is 1400 plus a whole number of 1000-unit growth steps,
    and the scale factor is at least 1. *)
Theorem reachable_logical_size `{StrokeRaster} (s : State) :
  reachable s ->
  800 <= width (canvasSize s) /\
  (exists k, 0 <= k /\ height (canvasSize s) = 1400 + 1000 * k) /\
  (1 <= dpr s)%Q.
Proof. intros Hr. apply (reachable_invariant s Hr). Qed.

(** The logical size after a mount, a pointer-down near the bottom and a
    move that makes the canvas grow. *)
Lemma reachable_logical_size_witness :
  let s := run (H := endpointRaster) (mount 1 (Some 1632))
             [PointerDown (pointerAt 10 1300);
              PointerMove (pointerAt 10 1310)] in
  reachable (H := endpointRaster) s /\
  800 <= width (canvasSize s) /\
  (exists k, 0 <= k /\ height (canvasSize s) = 1400 + 1000 * k) /\
  (1 <= dpr s)%Q.
Proof.
  intros s.
  assert (Hr : reachable (H := endpointRaster) s)
    by (apply reach_step, reach_step, reach_mount).
  split; [exact Hr|].
  exact (reachable_logical_size (H := endpointRaster) s Hr).
Defined.

Lemma physical_whole (v n : Z) (r : Q) :
  0 <= v -> (1 <= r)%Q -> (r == inject_Z n)%Q ->
  Z.of_nat (physical v r) = v * n.
Proof.
  intros Hv Hr En. rewrite En in Hr. rewrite (physical_comp v r _ En).
  change 1%Q with (inject_Z 1) in Hr. rewrite <- Zle_Qle in Hr.
  unfold physical. rewrite <- inject_Z_mult, Qfloor_Z.
  apply Z2Nat.id. nia.
Qed.

(** X5: in every reachable state the canvas has at least as many device
    pixels as the logical size has units, in each direction, hence at least
    800 by 1400: the canvas the effect copies forward and the export reads
    is never empty.  At a whole-number scale factor [n] it is exactly
    [width * n] by [height * n]. *)
Theorem reachable_canvas_size `{StrokeRaster} (s : State) :
  reachable s ->
  width (canvasSize s) <= Z.of_nat (canvas_width (canvas s)) /\
  height (canvasSize s) <= Z.of_nat (canvas_height (canvas s)) /\
  (800 <= canvas_width (canvas s))%nat /\
  (1400 <= canvas_height (canvas s))%nat /\
  (forall n : Z, (dpr s == inject_Z n)%Q ->
     Z.of_nat (canvas_width (canvas s)) = width (canvasSize s) * n /\
     Z.of_nat (canvas_height (canvas s)) = height (canvasSize s) * n).
Proof.
  intros Hr.
  destruct (reachable_invariant s Hr)
    as ((Hw & (k & Hk & Hh) & Hd) & (Ew & Eh & _) & _).
  assert (Gw := physical_ge (width (canvasSize s)) (dpr s)
                  ltac:(lia) Hd).
  assert (Gh := physical_ge (height (canvasSize s)) (dpr s)
                  ltac:(lia) Hd).
  rewrite Ew, Eh.
  split; [exact Gw|]. split; [exact Gh|].
  split; [lia|]. split; [lia|].
  intros n En.
  split; apply physical_whole; try assumption; lia.
Qed.

(** The canvas after a mount at pixel ratio 2. *)
Lemma reachable_canvas_size_witness :
  let s := mount 2 (Some 1032) in
  reachable (H := endpointRaster) s /\
  (dpr s == inject_Z 2)%Q /\
  width (canvasSize s) <= Z.of_nat (canvas_width (canvas s)) /\
  height (canvasSize s) <= Z.of_nat (canvas_height (canvas s)) /\
  (800 <= canvas_width (canvas s))%nat /\
  (1400 <= canvas_height (canvas s))%nat /\
  Z.of_nat (canvas_width (canvas s)) = width (canvasSize s) * 2 /\
  Z.of_nat (canvas_height (canvas s)) = height (canvasSize s) * 2.
Proof.
  intros s.
  assert (Hr : reachable (H := endpointRaster) s) by apply reach_mount.
  assert (Ed : (dpr s == inject_Z 2)%Q)
    by (unfold s, mount; rewrite commit_dpr; reflexivity).
  destruct (reachable_canvas_size (H := endpointRaster) s Hr)
    as (A & B & C & D & E).
  destruct (E 2 Ed) as [Ew Eh].
  split; [exact Hr|]. split; [exact Ed|].
  split; [exact A|]. split; [exact B|]. split; [exact C|].
  split; [exact D|]. split; [exact Ew | exact Eh].
Defined.

(** X6: in every reachable state nothing is saved on the context's stack
    and the context scales by the scale factor; so the [ctx.restore()] that
    ends [drawLine] pops nothing, and the stroke settings stay in force on
    the context after the call. *)
Theorem reachable_context `{StrokeRaster} (s : State) (p q : Point) :
  reachable s ->
  saved (ctx s) = [] /\
  (transform (current (ctx s)) == dpr s)%Q /\
  ctx (drawLine p q s) = strokeSetup (tool s) (color s) (size s) (ctx s) /\
  (transform (current (ctx (drawLine p q s))) == dpr s)%Q.
Proof.
  intros Hr. destruct (reachable_canonical s Hr) as [_ Hsv].
  destruct (reachable_invariant s Hr) as (_ & (_ & _ & Ht) & _).
  split; [exact Hsv|]. split; [exact Ht|].
  assert (E : ctx (drawLine p q s)
              = strokeSetup (tool s) (color s) (size s) (ctx s)).
  { unfold drawLine. cbn [ctx with_canvas]. unfold restore.
    rewrite strokeSetup_saved, Hsv. reflexivity. }
  split; [exact E|].
  rewrite E, strokeSetup_transform. exact Ht.
Qed.

(** The context after a mount at pixel ratio 2 and a cleared canvas. *)
Lemma reachable_context_witness :
  let s := step (H := endpointRaster) (mount 2 (Some 1632)) ClickClear in
  reachable (H := endpointRaster) s /\
  saved (ctx s) = [] /\
  (transform (current (ctx s)) == dpr s)%Q /\
  ctx (drawLine (H := endpointRaster) (mkPoint 1 1) (mkPoint 2 2) s)
  = strokeSetup (tool s) (color s) (size s) (ctx s) /\
  (transform (current (ctx (drawLine (H := endpointRaster)
                              (mkPoint 1 1) (mkPoint 2 2) s))) == dpr s)%Q.
Proof.
  intros s.
  assert (Hr : reachable (H := endpointRaster) s)
    by (apply reach_step, reach_mount).
  split; [exact Hr|].
  exact (reachable_context (H := endpointRaster) s (mkPoint 1 1)
           (mkPoint 2 2) Hr).
Defined.

(** X7: in every reachable state a session is open exactly when a last
    point is recorded; so in [onPointerMove] the test on [lastPoint] never
    decides: with [isDrawing] set, the move draws from the last point. *)
Theorem reachable_session `{StrokeRaster} (s : State) (e : PointerEvent) :
  reachable s ->
  (isDrawing s = true <-> lastPoint s <> None) /\
  (isDrawing s = true ->
   exists lp, lastPoint s = Some lp /\
     onPointerMove e s =
     extendIfNeeded (pt_y (localPoint e))
       (setLastPoint (Some (localPoint e)) (drawLine lp (localPoint e) s))).
Proof.
  intros Hr. destruct (reachable_invariant s Hr) as (_ & _ & Hs).
  split; [exact Hs|]. intros Hd.
  destruct (lastPoint s) as [lp|] eqn:El.
  - exists lp. split; [reflexivity|].
    unfold onPointerMove. rewrite Hd, El. reflexivity.
  - exfalso. apply Hs in Hd. apply Hd. exact El.
Qed.

(** The session after a mount and a pointer-down. *)
Lemma reachable_session_witness :
  let s := step (H := endpointRaster) (mount 1 (Some 1632))
             (PointerDown (pointerAt 10 10)) in
  reachable (H := endpointRaster) s /\
  (isDrawing s = true <-> lastPoint s <> None) /\
  (isDrawing s = true ->
   exists lp, lastPoint s = Some lp /\
     onPointerMove (H := endpointRaster) (pointerAt 20 20) s =
     extendIfNeeded (pt_y (localPoint (pointerAt 20 20)))
       (setLastPoint (Some (localPoint (pointerAt 20 20)))
          (drawLine (H := endpointRaster) lp (localPoint (pointerAt 20 20))
             s))).
Proof.
  intros s.
  assert (Hr : reachable (H := endpointRaster) s)
    by (apply reach_step, reach_mount).
  split; [exact Hr|].
  exact (reachable_session (H := endpointRaster) s (pointerAt 20 20) Hr).
Defined.

(** *** Gestures *)

Lemma step_pointer_down `{StrokeRaster} (s : State) (e : PointerEvent) :
  step s (PointerDown e) = startDraw e s.
Proof. unfold step, handle. apply commit_keep; reflexivity. Qed.

(** X8: a tap leaves no mark: pointer-down followed at once by pointer-up
    (or cancel, leave, out) draws nothing, and from an idle state it gives
    back the very same state. *)
Theorem tap_draws_nothing `{StrokeRaster} (s : State) (e : PointerEvent)
    (ev : Event) :
  ends_session ev ->
  canvas (run s [PointerDown e; ev]) = canvas s /\
  ctx (run s [PointerDown e; ev]) = ctx s /\
  (idle s -> lastPoint s = None -> run s [PointerDown e; ev] = s).
Proof.
  intros Hev. cbn [run fold_left].
  rewrite step_pointer_down, (step_ends_session _ ev Hev).
  split; [reflexivity|]. split; [reflexivity|].
  unfold idle. intros Hi Hl. destruct s; cbn in *. subst. reflexivity.
Qed.

(** A tap on the freshly rendered component. *)
Lemma tap_draws_nothing_witness :
  ends_session PointerUp /\ idle initialState /\
  lastPoint initialState = None /\
  run (H := endpointRaster) initialState
      [PointerDown (pointerAt 40 40); PointerUp] = initialState.
Proof.
  assert (He : ends_session PointerUp) by (left; reflexivity).
  split; [exact He|]. split; [reflexivity|]. split; [reflexivity|].
  apply (tap_draws_nothing (H := endpointRaster) initialState
           (pointerAt 40 40) PointerUp He); reflexivity.
Defined.

Lemma last_cons {A : Type} (ps : list A) (p d : A) :
  last (p :: ps) d = last ps p.
Proof.
  revert p d; induction ps as [|a l IH]; intros p d; [reflexivity|].
  change (last (p :: a :: l) d) with (last (a :: l) d).
  rewrite IH. symmetry. apply IH.
Qed.

Lemma drawPath_setLastPoint `{StrokeRaster} (path : list Point)
    (from : Point) (x : option Point) (s : State) :
  drawPath from path (setLastPoint x s)
  = setLastPoint x (drawPath from path s).
Proof.
  revert from s; induction path as [|to rest IH]; intros from s;
    [reflexivity|].
  cbn [drawPath]. rewrite <- IH. reflexivity.
Qed.

Lemma step_move_above `{StrokeRaster} (s : State) (e : PointerEvent)
    (lp : Point) :
  isDrawing s = true -> lastPoint s = Some lp -> above_threshold s e ->
  step s (PointerMove e)
  = setLastPoint (Some (localPoint e)) (drawLine lp (localPoint e) s).
Proof.
  intros Hd Hl Ha. unfold step, handle, onPointerMove. rewrite Hd, Hl.
  unfold extendIfNeeded. cbn [canvasSize setLastPoint drawLine with_canvas].
  destruct (Qlt_bool _ 200) eqn:E.
  - apply Qlt_bool_iff in E. contradiction.
  - apply commit_keep; reflexivity.
Qed.

Lemma moves_draw_path `{StrokeRaster} (es : list PointerEvent) (s : State)
    (p0 : Point) :
  isDrawing s = true -> lastPoint s = Some p0 ->
  Forall (above_threshold s) es ->
  run s (map PointerMove es)
  = setLastPoint (Some (last (map localPoint es) p0))
      (drawPath p0 (map localPoint es) s).
Proof.
  revert s p0; induction es as [|e es IH]; intros s p0 Hd Hl Hall.
  - destruct s; cbn in *. subst. reflexivity.
  - inversion Hall as [|? ? He Hes]; subst.
    cbn [map]. change (run s (PointerMove e :: map PointerMove es))
      with (run (step s (PointerMove e)) (map PointerMove es)).
    rewrite (step_move_above s e p0 Hd Hl He).
    rewrite (IH _ (localPoint e)); [| exact Hd | reflexivity | exact Hes].
    rewrite drawPath_setLastPoint, last_cons. reflexivity.
Qed.

(** X9: a gesture that stays 200 or more above the bottom edge (so that
    the canvas does not grow) is the chain of [drawLine] calls along its
    points: pointer-down at [e0] and moves through [es] stroke the segments
    from each point to the next, leave the last point recorded and the
    session open. *)
Theorem gesture_draws_path `{StrokeRaster} (s : State) (e0 : PointerEvent)
    (es : list PointerEvent) :
  Forall (above_threshold s) es ->
  run s (PointerDown e0 :: map PointerMove es)
  = setLastPoint (Some (last (map localPoint es) (localPoint e0)))
      (drawPath (localPoint e0) (map localPoint es) (setIsDrawing true s)).
Proof.
  intros Hall.
  change (run s (PointerDown e0 :: map PointerMove es))
    with (run (step s (PointerDown e0)) (map PointerMove es)).
  rewrite step_pointer_down.
  rewrite (moves_draw_path es (startDraw e0 s) (localPoint e0));
    [| reflexivity | reflexivity | exact Hall].
  unfold startDraw. rewrite drawPath_setLastPoint. reflexivity.
Qed.

(** A three-point gesture near the top of the mounted canvas. *)
Lemma gesture_draws_path_witness :
  Forall (above_threshold (mount 1 (Some 1632)))
    [pointerAt 20 30; pointerAt 40 35] /\
  run (H := endpointRaster) (mount 1 (Some 1632))
    (PointerDown (pointerAt 10 10)
     :: map PointerMove [pointerAt 20 30; pointerAt 40 35])
  = setLastPoint
      (Some (last (map localPoint [pointerAt 20 30; pointerAt 40 35])
               (localPoint (pointerAt 10 10))))
      (drawPath (H := endpointRaster) (localPoint (pointerAt 10 10))
         (map localPoint [pointerAt 20 30; pointerAt 40 35])
         (setIsDrawing true (mount 1 (Some 1632)))).
Proof.
  assert (Hall : Forall (above_threshold (mount 1 (Some 1632)))
                   [pointerAt 20 30; pointerAt 40 35]).
  { assert (Hh : height (canvasSize (mount 1 (Some 1632))) = 1400)
      by (unfold mount; rewrite commit_canvasSize; reflexivity).
    repeat constructor; unfold above_threshold; rewrite Hh;
      apply Qle_not_lt; discriminate. }
  split; [exact Hall|].
  exact (gesture_draws_path (H := endpointRaster) (mount 1 (Some 1632))
           (pointerAt 10 10) [pointerAt 20 30; pointerAt 40 35] Hall).
Defined.

Lemma physical_mono (v v' : Z) (r : Q) :
  v <= v' -> (0 <= r)%Q -> (physical v r <= physical v' r)%nat.
Proof.
  intros Hv Hr. unfold physical.
  assert (Hle : (inject_Z v * r <= inject_Z v' * r)%Q)
    by (apply Qmult_le_compat_r; [rewrite <- Zle_Qle; exact Hv | exact Hr]).
  apply Qfloor_resp_le in Hle. lia.
Qed.

(** X10: when a move of an open session, at a whole-pixel height, comes
    within 200 of the bottom edge, the stroke is drawn first and then the
    canvas is reallocated 1000 logical units higher: the canvas keeps its
    width and loses no row, every device pixel of the old canvas keeps what
    was just drawn, the rest of the new canvas is transparent, the session
    stays open with the new last point, and the context is reset to its
    defaults under the scale transform. *)
Theorem growth_keeps_drawing `{StrokeRaster} (s : State) (e : PointerEvent)
    (lp : Point) (n : Z) :
  reachable s ->
  isDrawing s = true -> lastPoint s = Some lp ->
  (pt_y (localPoint e) == inject_Z n)%Q ->
  height (canvasSize s) - n < 200 ->
  canvasSize (step s (PointerMove e))
  = mkSize (width (canvasSize s)) (height (canvasSize s) + 1000) /\
  canvas_width (canvas (step s (PointerMove e))) = canvas_width (canvas s) /\
  (canvas_height (canvas s)
   <= canvas_height (canvas (step s (PointerMove e))))%nat /\
  height (canvasSize s) + 1000
  <= Z.of_nat (canvas_height (canvas (step s (PointerMove e)))) /\
  (forall X Y,
     pix (canvas (step s (PointerMove e))) X Y =
     if (X <? canvas_width (canvas s))%nat
        && (Y <? canvas_height (canvas s))%nat
     then pix (canvas (drawLine lp (localPoint e) s)) X Y
     else transparent) /\
  isDrawing (step s (PointerMove e)) = true /\
  lastPoint (step s (PointerMove e)) = Some (localPoint e) /\
  ctx (step s (PointerMove e)) = update (setTransform (dpr s)) resetContext.
Proof.
  intros Hr Hd Hl Ey Hn.
  destruct (reachable_invariant s Hr)
    as ((_ & (k & Hk & Hh) & Hdpr) & (Ew0 & Eh0 & _) & _).
  assert (Hpos : (0 < dpr s)%Q)
    by (apply Qlt_le_trans with 1%Q; [reflexivity | exact Hdpr]).
  assert (Hlt : Qlt_bool (inject_Z (height (canvasSize s))
                          - pt_y (localPoint e)) 200 = true).
  { apply Qlt_bool_iff. rewrite Ey.
    unfold Qminus. rewrite <- inject_Z_opp, <- inject_Z_plus.
    change 200%Q with (inject_Z 200). rewrite <- Zlt_Qlt. lia. }
  set (new := setCanvasSize
                (fun prev => mkSize (width prev) (height prev + 1000))
                (setLastPoint (Some (localPoint e))
                   (drawLine lp (localPoint e) s))).
  assert (Hstep : step s (PointerMove e) = runEffect new).
  { unfold step, handle, onPointerMove. rewrite Hd, Hl.
    unfold extendIfNeeded.
    cbn [canvasSize setLastPoint drawLine with_canvas]. rewrite Hlt.
    fold new. unfold commit.
    assert (E : sameDeps s new = false).
    { unfold sameDeps, new.
      cbn [canvasSize setCanvasSize setLastPoint drawLine with_canvas
           width height].
      destruct (Z.eqb_spec (height (canvasSize s))
                  (height (canvasSize s) + 1000)); [lia|].
      rewrite andb_false_r. reflexivity. }
    rewrite E. reflexivity. }
  rewrite Hstep.
  destruct (runEffect_fields new) as (_ & _ & _ & Ei & El & Es & _).
  destruct (reinit_size (canvas new) (canvasSize new) (dpr new)) as [Ew Eh].
  rewrite Es, Ei, El, runEffect_canvas, runEffect_ctx.
  split; [reflexivity|].
  split; [rewrite Ew, Ew0; reflexivity|].
  split; [rewrite Eh, Eh0; apply physical_mono;
          [cbn; lia | apply Qlt_le_weak, Hpos]|].
  split; [rewrite Eh; apply physical_ge; [cbn; lia | exact Hdpr]|].
  split; [|split; [exact Hd | split; reflexivity]].
  intros X Y. rewrite reinit_pixel; [reflexivity | exact Hpos |].
  intros X' Y'. apply composite_canonical.
Qed.

(** Growth during a stroke that starts 100 above the bottom edge of the
    mounted canvas. *)
Lemma growth_keeps_drawing_witness :
  let s := step (H := endpointRaster) (mount 1 (Some 1632))
             (PointerDown (pointerAt 10 1300)) in
  reachable (H := endpointRaster) s /\
  isDrawing s = true /\
  lastPoint s = Some (localPoint (pointerAt 10 1300)) /\
  (pt_y (localPoint (pointerAt 10 1310)) == inject_Z 1310)%Q /\
  height (canvasSize s) - 1310 < 200 /\
  canvasSize (step (H := endpointRaster) s (PointerMove (pointerAt 10 1310)))
  = mkSize (width (canvasSize s)) (height (canvasSize s) + 1000) /\
  lastPoint (step (H := endpointRaster) s (PointerMove (pointerAt 10 1310)))
  = Some (localPoint (pointerAt 10 1310)).
Proof.
  intros s.
  assert (Hr : reachable (H := endpointRaster) s)
    by (apply reach_step, reach_mount).
  assert (Es : s = startDraw (pointerAt 10 1300) (mount 1 (Some 1632)))
    by apply step_pointer_down.
  assert (Hd : isDrawing s = true) by (rewrite Es; reflexivity).
  assert (Hl : lastPoint s = Some (localPoint (pointerAt 10 1300)))
    by (rewrite Es; reflexivity).
  assert (Hh : height (canvasSize s) = 1400)
    by (rewrite Es; unfold mount;
        cbn [startDraw canvasSize setLastPoint setIsDrawing];
        rewrite commit_canvasSize; reflexivity).
  assert (Ey : (pt_y (localPoint (pointerAt 10 1310)) == inject_Z 1310)%Q)
    by reflexivity.
  assert (Hn : height (canvasSize s) - 1310 < 200) by (rewrite Hh; lia).
  destruct (growth_keeps_drawing (H := endpointRaster) s (pointerAt 10 1310)
              (localPoint (pointerAt 10 1300)) 1310 Hr Hd Hl Ey Hn)
    as (Hs & _ & _ & _ & _ & _ & Hl' & _).
  split; [exact Hr|]. split; [exact Hd|]. split; [exact Hl|].
  split; [exact Ey|]. split; [exact Hn|]. split; [exact Hs | exact Hl'].
Defined.

(** X11: one growth step settles the check: for a pointer no more than
    800 below the bottom edge, a second check at the same position changes
    nothing, so repeated moves do not pile up growth. *)
Theorem growth_check_settles (s : State) (y : Q) :
  (y <= inject_Z (height (canvasSize s)) + 800)%Q ->
  extendIfNeeded y (extendIfNeeded y s) = extendIfNeeded y s.
Proof.
  intros Hy.
  assert (E2 : Qlt_bool (inject_Z (height (canvasSize s) + 1000) - y) 200
               = false).
  { destruct (Qlt_bool _ 200) eqn:E2; [|reflexivity].
    apply Qlt_bool_iff in E2. rewrite inject_Z_plus in E2.
    change (inject_Z 1000) with 1000%Q in E2. lra. }
  unfold extendIfNeeded.
  destruct (Qlt_bool (inject_Z (height (canvasSize s)) - y) 200) eqn:E.
  - cbn [canvasSize setCanvasSize height]. rewrite E2. reflexivity.
  - rewrite E. reflexivity.
Qed.

(** The check repeated at the bottom edge of a 1400 high canvas. *)
Lemma growth_check_settles_witness :
  (1400 <= inject_Z (height (canvasSize initialState)) + 800)%Q /\
  extendIfNeeded 1400 (extendIfNeeded 1400 initialState)
  = extendIfNeeded 1400 initialState.
Proof.
  assert (Hy : (1400 <= inject_Z (height (canvasSize initialState)) + 800)%Q)
    by discriminate.
  split; [exact Hy|].
  exact (growth_check_settles initialState 1400 Hy).
Defined.

(** *** Strokes *)

Lemma source_over_zero (s d : Pixel) :
  (alpha d = 0 -> d = transparent) -> source_over s d 0 = d.
Proof.
  intros Hc. unfold source_over.
  rewrite Z.mul_0_r. change (0 / 255) with 0.
  rewrite Z.sub_0_r, Z.div_mul, Z.add_0_l by lia.
  destruct (Z.eqb_spec (alpha d) 0) as [E|E].
  - symmetry; apply Hc; exact E.
  - rewrite !Z.mul_0_r, !Z.add_0_l, !Z.div_mul by exact E.
    destruct d; reflexivity.
Qed.

Lemma destination_out_zero (s d : Pixel) :
  (alpha d = 0 -> d = transparent) -> destination_out s d 0 = d.
Proof.
  intros Hc. unfold destination_out.
  rewrite Z.mul_0_r. change (0 / 255) with 0.
  rewrite Z.sub_0_r, Z.div_mul by lia.
  destruct (Z.eqb_spec (alpha d) 0) as [E|E].
  - symmetry; apply Hc; exact E.
  - destruct d; reflexivity.
Qed.

Lemma source_over_full_pixel (s d : Pixel) :
  alpha s = 255 -> source_over s d 255 = s.
Proof.
  intros Hs. unfold source_over. rewrite Hs.
  change (255 * 255 / 255) with 255.
  rewrite Z.sub_diag, Z.mul_0_r. change (0 / 255) with 0.
  rewrite Z.add_0_r. cbn [Z.eqb].
  rewrite !Z.mul_0_r, !Z.add_0_r, !Z.div_mul by lia.
  destruct s; cbn in *. subst. reflexivity.
Qed.

(** X12: a stroke is local: where the rasteriser reports no coverage, the
    pixel is left exactly as it was, with the pen and with the eraser; and
    the canvas keeps its dimensions. *)
Theorem stroke_is_local `{StrokeRaster} (s : State) (p q : Point)
    (X Y : nat) :
  canonical (canvas s) ->
  coverage (transform (current (ctx s))) (clamp (size s) 1 64)
    CapRound JoinRound (coords p) (coords q) X Y = 0 ->
  pix (canvas (drawLine p q s)) X Y = pix (canvas s) X Y /\
  canvas_width (canvas (drawLine p q s)) = canvas_width (canvas s) /\
  canvas_height (canvas (drawLine p q s)) = canvas_height (canvas s).
Proof.
  intros Hc Hcov. split; [|split; reflexivity].
  rewrite drawLine_pixel.
  destruct (tool s) eqn:Ht.
  - rewrite (strokeState_pen s Ht). cbn. rewrite Hcov.
    apply source_over_zero, Hc.
  - rewrite (strokeState_eraser s Ht). cbn. rewrite Hcov.
    apply destination_out_zero, Hc.
Qed.

(** An eraser stroke far from an inked pixel, under the end-point
    rasteriser. *)
Lemma stroke_is_local_witness :
  let s := setTool eraser
             (with_canvas (ink_at 4 4 3 3) resetContext initialState) in
  canonical (canvas s) /\
  pix (canvas (drawLine (H := endpointRaster) (mkPoint 0 0) (mkPoint 1 1) s))
      3 3
  = pix (canvas s) 3 3.
Proof.
  intros s.
  assert (Hc : canonical (canvas s)) by apply ink_at_canonical.
  split; [exact Hc|].
  apply (stroke_is_local (H := endpointRaster) s (mkPoint 0 0) (mkPoint 1 1)
           3 3 Hc).
  reflexivity.
Defined.

(** X13: where the pen's stroke covers a pixel fully, an opaque colour
    replaces whatever was there: the pixel becomes exactly the selected
    colour. *)
Theorem pen_paints_colour `{StrokeRaster} (s : State) (p q : Point)
    (X Y : nat) :
  tool s = pen -> alpha (color s) = 255 ->
  coverage (transform (current (ctx s))) (clamp (size s) 1 64)
    CapRound JoinRound (coords p) (coords q) X Y = 255 ->
  pix (canvas (drawLine p q s)) X Y = color s.
Proof.
  intros Ht Hc Hcov. rewrite drawLine_pixel, (strokeState_pen s Ht).
  cbn. rewrite Hcov. apply source_over_full_pixel, Hc.
Qed.

(** The default pen over an inked pixel, under the end-point rasteriser. *)
Lemma pen_paints_colour_witness :
  let s := with_canvas (ink_at 4 4 1 1) resetContext initialState in
  tool s = pen /\ alpha (color s) = 255 /\
  pix (canvas (drawLine (H := endpointRaster) (mkPoint 0 0) (mkPoint 1 1) s))
      1 1
  = color s.
Proof.
  intros s. split; [reflexivity|]. split; [reflexivity|].
  apply (pen_paints_colour (H := endpointRaster) s (mkPoint 0 0)
           (mkPoint 1 1) 1 1); reflexivity.
Defined.

(** X14: the eraser never adds ink: for a coverage within 0..255 the alpha
    of a pixel does not rise and does not fall below 0, whatever colour is
    selected. *)
Theorem eraser_never_adds_ink `{StrokeRaster} (s : State) (p q : Point)
    (X Y : nat) :
  tool s = eraser ->
  0 <= coverage (transform (current (ctx s))) (clamp (size s) 1 64)
         CapRound JoinRound (coords p) (coords q) X Y <= 255 ->
  0 <= alpha (pix (canvas s) X Y) ->
  0 <= alpha (pix (canvas (drawLine p q s)) X Y)
    <= alpha (pix (canvas s) X Y).
Proof.
  intros Ht Hcov Ha. rewrite drawLine_pixel, (strokeState_eraser s Ht).
  cbn [globalCompositeOperation strokeStyle transform lineWidth lineCap
       lineJoin composite].
  set (c := coverage _ _ _ _ _ _ _ _) in *.
  set (d := pix (canvas s) X Y) in *.
  unfold destination_out. cbn [alpha].
  rewrite (Z.mul_comm 255 c), Z.div_mul by lia.
  destruct (Z.eqb_spec (alpha d * (255 - c) / 255) 0) as [E|E].
  - cbn. lia.
  - cbn [alpha]. split.
    + apply Z.div_pos; nia.
    + apply Z.div_le_upper_bound; nia.
Qed.

(** The eraser passing over an inked pixel, under the end-point
    rasteriser. *)
Lemma eraser_never_adds_ink_witness :
  let s := setTool eraser
             (with_canvas (ink_at 4 4 1 1) resetContext initialState) in
  tool s = eraser /\
  0 <= alpha (pix (canvas (drawLine (H := endpointRaster) (mkPoint 0 0)
                             (mkPoint 1 1) s)) 1 1)
    <= alpha (pix (canvas s) 1 1).
Proof.
  intros s. split; [reflexivity|].
  apply (eraser_never_adds_ink (H := endpointRaster) s (mkPoint 0 0)
           (mkPoint 1 1) 1 1); [reflexivity | | ]; cbn; lia.
Defined.

(** *** Clear, resize, mount *)

Lemma Qnat_le (X w : nat) : (X <= w)%nat -> (Qnat X <= Qnat w)%Q.
Proof. intros Hle. unfold Qnat. rewrite <- Zle_Qle. lia. Qed.

Lemma restore_after_save (f : DrawState -> DrawState) (k : Context) :
  restore (update f (save k)) = k.
Proof. destruct k; reflexivity. Qed.

Lemma step_clear `{StrokeRaster} (s : State) :
  step s ClickClear
  = with_canvas (clearRect (dpr s) (Qnat (canvas_width (canvas s)))
                   (Qnat (canvas_height (canvas s))) (canvas s))
                (ctx s) s.
Proof.
  unfold step, handle. rewrite commit_keep by reflexivity.
  unfold handleClear. rewrite restore_after_save. reflexivity.
Qed.

Lemma clearRect_all_transparent (r : Q) (c : Bitmap) :
  (1 <= r)%Q ->
  all_transparent (clearRect r (Qnat (canvas_width c))
                     (Qnat (canvas_height c)) c).
Proof.
  intros Hr X Y HX HY. unfold clearRect in *. cbn [pix canvas_width
    canvas_height] in *.
  assert (Hin : forall a w, (a < w)%nat ->
            Qle_bool (Qnat (S a)) (Qnat w * r) = true).
  { intros a w Ha. apply Qle_bool_iff.
    apply Qle_trans with (Qnat w); [apply Qnat_le; lia|].
    apply Qle_mult_ge_1; [|exact Hr].
    change 0%Q with (Qnat 0). apply Qnat_le; lia. }
  rewrite (Hin X _ HX), (Hin Y _ HY). reflexivity.
Qed.

(** X15: Clear, at a scale factor of at least 1 as every reachable state
    has, makes every pixel of the canvas transparent and changes nothing
    else: tool, colour, size, session, logical size, scale factor, canvas
    dimensions and context (its transform restored) stay as they were. *)
Theorem clear_blanks_canvas `{StrokeRaster} (s : State) :
  (1 <= dpr s)%Q ->
  all_transparent (canvas (step s ClickClear)) /\
  canvas_width (canvas (step s ClickClear)) = canvas_width (canvas s) /\
  canvas_height (canvas (step s ClickClear)) = canvas_height (canvas s) /\
  step s ClickClear = with_canvas (canvas (step s ClickClear)) (ctx s) s.
Proof.
  intros Hr. rewrite step_clear. cbn [canvas with_canvas].
  split; [apply clearRect_all_transparent, Hr|].
  split; [reflexivity|]. split; reflexivity.
Qed.

(** Clear after a stroke on the canvas mounted at pixel ratio 2. *)
Lemma clear_blanks_canvas_witness :
  let s := run (H := endpointRaster) (mount 2 (Some 1632))
             [PointerDown (pointerAt 10 10); PointerMove (pointerAt 20 20)] in
  (1 <= dpr s)%Q /\
  all_transparent (canvas (step (H := endpointRaster) s ClickClear)).
Proof.
  intros s.
  assert (Hr : (1 <= dpr s)%Q).
  { apply (reachable_invariant (H := endpointRaster) s).
    apply reach_step, reach_step, reach_mount. }
  split; [exact Hr|].
  apply (clear_blanks_canvas (H := endpointRaster) s Hr).
Defined.

(** X16: exporting right after Clear gives the degenerate image: the full
    canvas width, 10 rows, every pixel transparent. *)
Theorem clear_then_export `{StrokeRaster} (s : State) :
  (1 <= dpr s)%Q ->
  canvas_width (handleExport (canvas (step s ClickClear)))
  = canvas_width (canvas s) /\
  canvas_height (handleExport (canvas (step s ClickClear))) = 10%nat /\
  all_transparent (handleExport (canvas (step s ClickClear))).
Proof.
  intros Hr. rewrite step_clear. cbn [canvas with_canvas].
  split; [reflexivity|].
  apply export_of_all_transparent, clearRect_all_transparent, Hr.
Qed.

(** Export after Clear on the canvas mounted at pixel ratio 1. *)
Lemma clear_then_export_witness :
  (1 <= dpr (mount 1 (Some 1632%Z)))%Q /\
  canvas_height
    (handleExport (canvas (step (H := endpointRaster) (mount 1 (Some 1632))
                             ClickClear))) = 10%nat.
Proof.
  assert (Hr : (1 <= dpr (mount 1 (Some 1632%Z)))%Q).
  { apply (reachable_invariant (H := endpointRaster)). apply reach_mount. }
  split; [exact Hr|].
  apply (clear_then_export (H := endpointRaster) (mount 1 (Some 1632)) Hr).
Defined.

Lemma handleResize_twice (r : Q) (c : option Z) (s : State) :
  handleResize r c (commit s (handleResize r c s))
  = commit s (handleResize r c s).
Proof.
  unfold commit. destruct (sameDeps s (handleResize r c s)).
  - unfold handleResize. destruct c; reflexivity.
  - unfold runEffect. destruct (reinit _ _ _) as [b k].
    unfold handleResize. destruct c; reflexivity.
Qed.

(** X17: a resize notification that repeats the previous one is absorbed:
    the state does not change at all, so the canvas is not reallocated and
    its context is not reset. *)
Theorem resize_twice `{StrokeRaster} (s : State) (r : Q) (c : option Z) :
  step (step s (Resize r c)) (Resize r c) = step s (Resize r c).
Proof.
  unfold step at 1. cbn [handle]. unfold step. cbn [handle].
  rewrite handleResize_twice. apply commit_same.
Qed.

(** X18: the mounted component starts idle with a fully transparent
    canvas, whatever the pixel ratio and the container: the 300 by 150
    canvas copied forward by the first runs of the effect has no ink. *)
Theorem mount_blank (r : Q) (c : option Z) :
  (forall X Y, pix (canvas (mount r c)) X Y = transparent) /\
  isDrawing (mount r c) = false /\ lastPoint (mount r c) = None /\
  canvas_height (handleExport (canvas (mount r c))) = 10%nat.
Proof.
  assert (H0 : forall X Y,
            pix (canvas (runEffect initialState)) X Y = transparent).
  { intros X Y. rewrite runEffect_canvas.
    rewrite reinit_pixel; [|reflexivity | intros ? ? _; reflexivity].
    destruct (_ && _); reflexivity. }
  assert (Hp : forall X Y, pix (canvas (mount r c)) X Y = transparent).
  { intros X Y. unfold mount, commit.
    destruct (sameDeps _ _).
    - rewrite handleResize_canvas. apply H0.
    - rewrite runEffect_canvas, handleResize_canvas.
      rewrite reinit_pixel;
        [| apply handleResize_dpr_pos | apply runEffect_invariant].
      destruct (_ && _); [apply H0 | reflexivity]. }
  split; [exact Hp|].
  destruct (commit_fields (runEffect initialState)
              (handleResize r c (runEffect initialState)))
    as (_ & _ & _ & Ei & El & _).
  destruct (runEffect_fields initialState) as (_ & _ & _ & Ei0 & El0 & _).
  unfold mount. rewrite Ei, El.
  split; [unfold handleResize; destruct c; exact Ei0|].
  split; [unfold handleResize; destruct c; exact El0|].
  apply export_of_all_transparent. intros X Y _ _. apply Hp.
Qed.

(** *** The downloaded file's name *)

Lemma string_length_append (a b : String.string) :
  String.length (String.append a b)
  = (String.length a + String.length b)%nat.
Proof. induction a as [|ch a IH]; simpl; [reflexivity | rewrite IH; reflexivity]. Qed.

Lemma string_append_inj_r (a b t : String.string) :
  String.append a t = String.append b t -> a = b.
Proof.
  revert b; induction a as [|ch a IH]; intros [|ch' b] E.
  - reflexivity.
  - apply (f_equal String.length) in E. simpl in E.
    rewrite string_length_append in E. lia.
  - apply (f_equal String.length) in E. simpl in E.
    rewrite string_length_append in E. lia.
  - simpl in E. injection E as <- E. f_equal. apply IH, E.
Qed.

Lemma decimal_injective (a b : N) :
  Download.decimal a = Download.decimal b -> a = b.
Proof.
  unfold Download.decimal. intros E.
  apply DecimalN.Unsigned.to_uint_inj.
  pose proof (DecimalString.NilEmpty.usu (N.to_uint a)) as Ha.
  rewrite E, DecimalString.NilEmpty.usu in Ha.
  injection Ha as Ha. symmetry; exact Ha.
Qed.

(** X19: exports made at different times get different file names: the
    name determines the timestamp it was built from. *)
Theorem downloadName_injective (a b : N) :
  Download.downloadName a = Download.downloadName b -> a = b.
Proof.
  unfold Download.downloadName. intros E. simpl in E.
  injection E as E.
  apply decimal_injective, (string_append_inj_r _ _ _ E).
Qed.

(** A name and the timestamp read back from it. *)
Lemma downloadName_injective_witness :
  Download.downloadName 1700000000000 = Download.downloadName 1700000000000
  /\ 1700000000000%N = 1700000000000%N.
Proof.
  split; [reflexivity|].
  apply (downloadName_injective 1700000000000 1700000000000). reflexivity.
Defined.

(** *** Reallocation and export after drawing *)

(** X20: a resize notification, whatever pixel ratio and container it
    reports, keeps the bitmap device pixel for device pixel: inside the new
    canvas, a pixel that was inside the old canvas keeps its value (content
    beyond a narrower canvas is clipped), and every other pixel is
    transparent. *)
Theorem resize_keeps_pixels `{StrokeRaster} (s : State) (r : Q)
    (c : option Z) (X Y : nat) :
  reachable s ->
  (X < canvas_width (canvas (step s (Resize r c))))%nat ->
  (Y < canvas_height (canvas (step s (Resize r c))))%nat ->
  getPixel (canvas (step s (Resize r c))) X Y =
  Some (if (X <? canvas_width (canvas s))%nat
           && (Y <? canvas_height (canvas s))%nat
        then pix (canvas s) X Y else transparent).
Proof.
  intros Hr HX HY. rewrite getPixel_inside by assumption. f_equal.
  destruct (reachable_canonical s Hr) as [Hc _].
  unfold step, commit in *. cbn [handle] in *.
  destruct (sameDeps s (handleResize r c s)) eqn:E.
  - rewrite handleResize_canvas in *.
    destruct (Nat.ltb_spec X (canvas_width (canvas s))); [|lia].
    destruct (Nat.ltb_spec Y (canvas_height (canvas s))); [|lia].
    reflexivity.
  - rewrite runEffect_canvas, handleResize_canvas.
    apply reinit_pixel; [apply handleResize_dpr_pos | exact Hc].
Qed.

(** A pixel of the mounted canvas after the pixel ratio goes from 1 to 2. *)
Lemma resize_keeps_pixels_witness :
  reachable (H := endpointRaster) (mount 1 (Some 1632)) /\
  getPixel (canvas (step (H := endpointRaster) (mount 1 (Some 1632))
                      (Resize 2 (Some 1632)))) 5 7 =
  Some (if (5 <? canvas_width (canvas (mount 1 (Some 1632%Z))))%nat
           && (7 <? canvas_height (canvas (mount 1 (Some 1632%Z))))%nat
        then pix (canvas (mount 1 (Some 1632))) 5 7 else transparent).
Proof.
  assert (Hr : reachable (H := endpointRaster) (mount 1 (Some 1632)))
    by apply reach_mount.
  split; [exact Hr|].
  apply (resize_keeps_pixels (H := endpointRaster) (mount 1 (Some 1632)) 2
           (Some 1632) 5 7 Hr); apply Nat.ltb_lt; vm_compute; reflexivity.
Defined.

(** X21: what the pen draws is exported: a pixel of the canvas that an
    opaque pen stroke covers fully is in the exported image, at the same
    place, with the selected colour. *)
Theorem drawn_pixel_is_exported `{StrokeRaster} (s : State) (p q : Point)
    (X Y : nat) :
  tool s = pen -> alpha (color s) = 255 ->
  (X < canvas_width (canvas s))%nat -> (Y < canvas_height (canvas s))%nat ->
  coverage (transform (current (ctx s))) (clamp (size s) 1 64)
    CapRound JoinRound (coords p) (coords q) X Y = 255 ->
  getPixel (handleExport (canvas (drawLine p q s))) X Y = Some (color s) /\
  (Y < canvas_height (handleExport (canvas (drawLine p q s))))%nat.
Proof.
  intros Ht Hc HX HY Hcov.
  assert (Hp : pix (canvas (drawLine p q s)) X Y = color s).
  { rewrite drawLine_pixel, (strokeState_pen s Ht). cbn. rewrite Hcov.
    apply source_over_full_pixel, Hc. }
  assert (Hink : rowHasInk (getImageData (canvas (drawLine p q s)))
                   (canvas_width (canvas (drawLine p q s))) Y = true).
  { apply rowHasInk_spec; [exact HY|]. exists X. split; [exact HX|].
    rewrite Hp, Hc. discriminate. }
  assert (HYr : (Y <= lastNonEmptyRow
                        (getImageData (canvas (drawLine p q s)))
                        (canvas_width (canvas (drawLine p q s)))
                        (canvas_height (canvas (drawLine p q s))))%nat).
  { destruct (Nat.le_gt_cases Y
                (lastNonEmptyRow (getImageData (canvas (drawLine p q s)))
                   (canvas_width (canvas (drawLine p q s)))
                   (canvas_height (canvas (drawLine p q s)))))
      as [Hle|Hgt]; [exact Hle|].
    rewrite (lastNonEmptyRow_above _ _ _ Y Hgt HY) in Hink. discriminate. }
  pose proof (export_height_scan (canvas (drawLine p q s))) as Hh.
  split; [|lia].
  rewrite getPixel_inside by (rewrite ?export_width, ?Hh; (exact HX || lia)).
  f_equal. rewrite <- Hp.
  unfold handleExport, drawImage, createCanvas; cbn [pix].
  destruct (Nat.ltb_spec X (canvas_width (canvas (drawLine p q s))))
    as [_|Hge];
    [|exact (False_ind _ (Nat.lt_irrefl _ (Nat.lt_le_trans _ _ _ HX Hge)))].
  destruct (Nat.ltb_spec Y (canvas_height (canvas (drawLine p q s))))
    as [_|Hge];
    [|exact (False_ind _ (Nat.lt_irrefl _ (Nat.lt_le_trans _ _ _ HY Hge)))].
  cbn [andb]. apply source_over_transparent.
  intros E. rewrite Hp, Hc in E. discriminate E.
Qed.

(** The end point of a pen segment on a small canvas, exported. *)
Lemma drawn_pixel_is_exported_witness :
  let s := with_canvas (createCanvas 4 4) resetContext initialState in
  tool s = pen /\ alpha (color s) = 255 /\
  getPixel (handleExport
              (canvas (drawLine (H := endpointRaster) (mkPoint 0 0)
                         (mkPoint 2 3) s))) 2 3 = Some (color s).
Proof.
  intros s. split; [reflexivity|]. split; [reflexivity|].
  apply (drawn_pixel_is_exported (H := endpointRaster) s (mkPoint 0 0)
           (mkPoint 2 3) 2 3); try reflexivity; cbn; lia.
Defined.
